(** * Hasaki crawler: shallow embedding of the fetch, walk and persistence logic

    Models of [src/api_client.py], [src/crawl_listings.py],
    [src/crawler.py], [src/supabase_client.py], [src/config.py] and
    [src/find_brands.py].  HTTP replies, database replies and the like are
    inputs (oracle functions); the control flow around them is translated
    from the source. *)

From Stdlib Require Import ZArith Lia Bool String Ascii.
From Stdlib Require Import Sorting.Sorted.
From stdpp Require Import base gmap list sorting.

Open Scope Z_scope.

(** ** [HasakiAPIClient.get_product_reviews] *)
Module ReviewWalk.

(** [data.get("data", {})]: either a dict carrying [reviews] (default
    [[]]) and [total] (default [0]), or any other JSON value. *)
Inductive reviews_data :=
| RDDict (reviews : list Z) (total : Z)
| RDOther.

(** What [_make_request(url, return_metadata=True)] returns on success:
    the parsed body and the metadata (here the HTTP status). *)
Record response := mk_response {
  resp_data : reviews_data;
  resp_status : Z
}.

Definition reviews_of (r : response) : list Z :=
  match resp_data r with RDDict rv _ => rv | RDOther => [] end.

Definition total_of (r : response) : Z :=
  match resp_data r with RDDict _ t => t | RDOther => 0 end.

(** Local variables of the [while] loop, plus the log of requested page
    numbers (the HTTP effect of each iteration). *)
Record walk_state := mk_state {
  page : Z;
  consecutive_failures : Z;
  calculated_max_pages : option Z;
  all_reviews : list (response * Z);
  requested : list Z
}.

Definition max_consecutive_failures : Z := 3.
Definition PAGE_SIZE : Z := 5.

(** Python truthiness of [calculated_max_pages]. *)
Definition truthy_opt (o : option Z) : bool :=
  match o with Some m => negb (m =? 0) | None => false end.

Inductive outcome :=
| Continue (s : walk_state)
| Break (s : walk_state).

Definition state_of (o : outcome) : walk_state :=
  match o with Continue s => s | Break s => s end.

Definition is_break (o : outcome) : bool :=
  match o with Continue _ => false | Break _ => true end.

(** One iteration of the loop body, [fetch p] being the result of
    [_make_request] for the URL of page [p] ([None] = soft failure). *)
Definition loop_body (fetch : Z -> option response) (s : walk_state) : outcome :=
  let p := page s in
  let req := requested s ++ [p] in
  match fetch p with
  | None =>
      let cf := consecutive_failures s + 1 in
      if max_consecutive_failures <=? cf
      then Break (mk_state p cf (calculated_max_pages s) (all_reviews s) req)
      else Continue (mk_state (p + 1) cf (calculated_max_pages s) (all_reviews s) req)
  | Some r =>
      let reviews := reviews_of r in
      let total_reviews := total_of r in
      let cmp :=
        if (p =? 1) && (0 <? total_reviews)
        then Some ((total_reviews + PAGE_SIZE - 1) / PAGE_SIZE)
        else calculated_max_pages s in
      match reviews with
      | [] => Break (mk_state p 0 cmp (all_reviews s) req)
      | _ :: _ =>
          if truthy_opt cmp && (match cmp with Some m => m <? p | None => false end)
          then Break (mk_state p 0 cmp (all_reviews s) req)
          else Continue (mk_state (p + 1) 0 cmp (all_reviews s ++ [(r, p)]) req)
      end
  end.

(** [while page <= max_pages: ...]; each [Continue] adds one to [page], so
    [Z.to_nat max_pages] iterations are enough (see [walk_through] and [run_breaks_at]). *)
Fixpoint walk (fuel : nat) (fetch : Z -> option response) (max_pages : Z)
    (s : walk_state) : walk_state :=
  match fuel with
  | O => s
  | S n =>
      if page s <=? max_pages then
        match loop_body fetch s with
        | Continue s' => walk n fetch max_pages s'
        | Break s' => s'
        end
      else s
  end.

Definition init_state : walk_state := mk_state 1 0 None [] [].

Definition run (fetch : Z -> option response) (max_pages : Z) : walk_state :=
  walk (Z.to_nat max_pages) fetch max_pages init_state.

Definition get_product_reviews (fetch : Z -> option response) (max_pages : Z)
    : list (response * Z) :=
  all_reviews (run fetch max_pages).

Definition default_max_pages : Z := 50.

(** States the loop head can be in. *)
Inductive reachable (fetch : Z -> option response) (max_pages : Z)
    : walk_state -> Prop :=
| reach_init : reachable fetch max_pages init_state
| reach_step s s' :
    reachable fetch max_pages s ->
    page s <= max_pages ->
    loop_body fetch s = Continue s' ->
    reachable fetch max_pages s'.

(** Length of the run of soft failures ending at page [q] (pages count
    from 1). *)
Fixpoint fail_run_nat (fetch : Z -> option response) (n : nat) : Z :=
  match n with
  | O => 0
  | S k =>
      match fetch (Z.of_nat (S k)) with
      | None => fail_run_nat fetch k + 1
      | Some _ => 0
      end
  end.

Definition fail_run (fetch : Z -> option response) (q : Z) : Z :=
  fail_run_nat fetch (Z.to_nat q).

End ReviewWalk.

(** ** [HasakiAPIClient._make_request] *)
Module MakeRequest.

(** The exceptions [session.get], [raise_for_status] and [json] can
    raise.  In [requests] every class below except the last two derives
    from [RequestException] (itself a subclass of [OSError]). *)
Inductive exn :=
| HTTPError (status : Z)      (** [raise_for_status] on a 4xx/5xx reply *)
| ConnectionError_             (** [requests.exceptions.ConnectionError] *)
| Timeout                      (** [requests.exceptions.Timeout] *)
| RetryError                   (** adapter-level [Retry] exhausted *)
| JSONDecodeError              (** [response.json()] on a non-JSON body *)
| SocketOSError                (** a bare [OSError], e.g. WinError 10035 *)
| OtherException.              (** anything not derived from [OSError] *)

Definition is_request_exception (e : exn) : bool :=
  match e with
  | HTTPError _ | ConnectionError_ | Timeout | RetryError | JSONDecodeError => true
  | SocketOSError | OtherException => false
  end.

Definition is_oserror (e : exn) : bool :=
  match e with
  | OtherException => false
  | _ => true
  end.

(** [except (requests.exceptions.RequestException, OSError, ConnectionError)]
    (the builtin [ConnectionError] is an [OSError]). *)
Definition caught (e : exn) : bool :=
  is_request_exception e || is_oserror e.

(** What one [self.session.get(url, ...)] call does: raise, or return a
    response with a status code and a body that parses as JSON ([Some])
    or not ([None]). *)
Inductive get_outcome (json : Type) :=
| GetRaises (e : exn)
| GetResponse (status : Z) (body : option json).
Arguments GetRaises {json} e.
Arguments GetResponse {json} status body.

Inductive attempt_result (json : Type) :=
| AttemptOk (data : json) (status : Z)
| AttemptExn (e : exn).
Arguments AttemptOk {json} data status.
Arguments AttemptExn {json} e.

(** The body of the [try] block: [session.get], [raise_for_status]
    (raises for 400 <= status < 600), then [response.json()]. *)
Definition one_attempt {json} (g : get_outcome json) : attempt_result json :=
  match g with
  | GetRaises e => AttemptExn e
  | GetResponse status body =>
      if (400 <=? status) && (status <? 600) then AttemptExn (HTTPError status)
      else match body with
           | None => AttemptExn JSONDecodeError
           | Some d => AttemptOk d status
           end
  end.

Inductive mr_result (json : Type) :=
| Returned (r : option (json * Z))
| Raised (e : exn).
Arguments Returned {json} r.
Arguments Raised {json} e.

Definition max_retries : Z := 3.

(** [for attempt in range(max_retries)], with [gets a] the outcome of
    the [a]-th [session.get].  Returns the result, the sleeps performed
    (in milliseconds) and the attempts made. *)
Fixpoint attempts {json} (range : list Z) (gets : Z -> get_outcome json)
    : mr_result json * list Z * list Z :=
  match range with
  | [] => (Returned None, [], [])
  | attempt :: rest =>
      match one_attempt (gets attempt) with
      | AttemptOk d status => (Returned (Some (d, status)), [], [attempt])
      | AttemptExn e =>
          if caught e then
            if attempt <? max_retries - 1 then
              let '(r, sleeps, tried) := attempts rest gets in
              (r, 50 * (attempt + 1) :: sleeps, attempt :: tried)
            else (Returned None, [], [attempt])
          else (Raised e, [], [attempt])
      end
  end.

Definition py_range (n : Z) : list Z := map Z.of_nat (seq 0 (Z.to_nat n)).

Definition make_request {json} (gets : Z -> get_outcome json)
    : mr_result json * list Z * list Z :=
  attempts (py_range max_retries) gets.

End MakeRequest.

(** ** [HasakiAPIClient.get_product_ids_from_category] *)
Module ListingWalk.

(** A listing reply: the [listing] array ([data.get("listing", [])]) and
    the metadata (the HTTP status). *)
Record listing_response := mk_listing {
  listing : list Z;
  listing_status : Z
}.

(** [while True:] with [fuel] bounding the number of iterations; [None]
    means the loop had not finished within [fuel] iterations. *)
Fixpoint listing_loop (fuel : nat) (fetch : Z -> option listing_response)
    (page : Z) (all_listings : list listing_response)
    : option (list listing_response) :=
  match fuel with
  | O => None
  | S n =>
      match fetch page with
      | None => Some all_listings
      | Some r =>
          match listing r with
          | [] => Some all_listings
          | _ :: _ => listing_loop n fetch (page + 1) (all_listings ++ [r])
          end
      end
  end.

Definition get_product_ids_from_category (fuel : nat)
    (fetch : Z -> option listing_response) : option (list listing_response) :=
  listing_loop fuel fetch 1 [].

End ListingWalk.

(** ** [ListingCrawler._parse_category_hierarchy] *)
Module Categories.

Local Set Warnings "-register-all".

(** The [child] entry of a category object: absent, present but not a
    list, or a list of categories. *)
Inductive child_field (A : Type) :=
| NoChildKey
| ChildNotList
| ChildList (l : list A).
Arguments NoChildKey {A}.
Arguments ChildNotList {A}.
Arguments ChildList {A} l.

(** A category object: [id] ([None] when absent or null), [name] and
    [child]. *)
Inductive category :=
| Cat (cat_id : option Z) (name : option string) (child : child_field category).

Record leaf := mk_leaf { leaf_id : Z; leaf_name : string }.

(** [if cat_id:] *)
Definition truthy_id (o : option Z) : bool :=
  match o with Some i => negb (i =? 0) | None => false end.

(** [traverse] on one category (the body of its [for] loop); the loop
    over a list is [flat_map traverse_cat]. *)
Fixpoint traverse_cat (cat : category) : list leaf :=
  match cat with
  | Cat cat_id name child =>
      match cat_id with
      | Some i =>
          if truthy_id cat_id then
            match child with
            | ChildList (c :: cs) => flat_map traverse_cat (c :: cs)
            | _ => [mk_leaf i (default ""%string name)]
            end
          else []
      | None => []
      end
  end.

Definition traverse (cat_list : list category) : list leaf :=
  flat_map traverse_cat cat_list.

Definition parse_category_hierarchy (categories : list category) : list leaf :=
  traverse categories.

(** The leaves of a tree as the spec describes them: nodes with no
    [child] list or an empty one, depth first, children in order. *)
Fixpoint leaves (cat : category) : list category :=
  match cat with
  | Cat _ _ (ChildList (c :: cs)) => flat_map leaves (c :: cs)
  | _ => [cat]
  end.

Definition leaves_list (l : list category) : list category := flat_map leaves l.

(** Every node of the tree has a truthy [id]. *)
Fixpoint ids_truthy (cat : category) : bool :=
  match cat with
  | Cat cat_id _ child =>
      truthy_id cat_id
      && match child with
         | ChildList l => forallb ids_truthy l
         | _ => true
         end
  end.

Definition to_leaf (cat : category) : leaf :=
  match cat with
  | Cat cat_id name _ => mk_leaf (default 0 cat_id) (default ""%string name)
  end.

(** Induction over category trees, children included. *)
Definition category_ind' (P : category -> Prop)
    (Hcat : forall cat_id name child,
        match child with ChildList l => Forall P l | _ => True end ->
        P (Cat cat_id name child)) : forall c, P c :=
  fix F (c : category) : P c :=
    match c with
    | Cat cat_id name child =>
        Hcat cat_id name child
          (match child as ch
                 return (match ch with ChildList l => Forall P l | _ => True end) with
           | ChildList l =>
               (fix G (l : list category) : Forall P l :=
                  match l with
                  | [] => @List.Forall_nil _ P
                  | x :: xs => @List.Forall_cons _ P x xs (F x) (G xs)
                  end) l
           | _ => I
           end)
    end.

End Categories.

(** ** [ListingCrawler._batch_insert_products] *)
Module BatchInsert.

Record product := mk_product { product_id : string; brand_id : option string }.

(** A database call either raises or replies with [result.data]. *)
Inductive reply (A : Type) :=
| Raises
| Replies (data : A).
Arguments Raises {A}.
Arguments Replies {A} data.

(** The three persistence paths, as seen from the client:
    [rpc('batch_insert_listing_api')] replies with an integer or null,
    the direct [listing_api] insert with the inserted rows, and
    [rpc('safe_insert_listing_api')] with some value or null. *)
Record storage := mk_storage {
  batch_insert_listing_api : list product -> reply (option Z);
  listing_api_insert : list product -> reply (list product);
  safe_insert_listing_api : product -> reply (option Z)
}.

Inductive call :=
| CallBatchRpc (batch : list product)
| CallTableInsert (batch : list product)
| CallSingleRpc (p : product).

(** [for product in batch: try: ... except: pass] *)
Fixpoint insert_individually (S : storage) (batch : list product) : Z * list call :=
  match batch with
  | [] => (0, [])
  | p :: rest =>
      let '(n, calls) := insert_individually S rest in
      match safe_insert_listing_api S p with
      | Replies (Some _) => (1 + n, CallSingleRpc p :: calls)
      | Replies None | Raises => (n, CallSingleRpc p :: calls)
      end
  end.

(** The body of the batch loop: the count this batch adds to
    [inserted_count] and the calls it makes. *)
Definition insert_batch (S : storage) (batch : list product) : Z * list call :=
  match batch_insert_listing_api S batch with
  | Replies data =>
      (match data with
       | Some n => if n =? 0 then 0 else n
       | None => 0
       end, [CallBatchRpc batch])
  | Raises =>
      match listing_api_insert S batch with
      | Replies rows => (Z.of_nat (length rows), [CallBatchRpc batch; CallTableInsert batch])
      | Raises =>
          let '(n, calls) := insert_individually S batch in
          (n, CallBatchRpc batch :: CallTableInsert batch :: calls)
      end
  end.

(** [batch_size = 100], the default every caller uses. *)
Definition batch_size : nat := 100.

(** [range(0, len(products), batch_size)] *)
Definition batch_starts (n : nat) : list nat :=
  map (fun k => k * batch_size)%nat (seq 0 ((n + batch_size - 1) / batch_size)).

(** [products[i:i + batch_size]] for each start [i]. *)
Definition batches (products : list product) : list (list product) :=
  map (fun i => take batch_size (drop i products)) (batch_starts (length products)).

Fixpoint insert_batches (S : storage) (bs : list (list product)) : Z * list call :=
  match bs with
  | [] => (0, [])
  | b :: rest =>
      let '(n, calls) := insert_batch S b in
      let '(m, calls') := insert_batches S rest in
      (n + m, calls ++ calls')
  end.

Definition batch_insert_products (S : storage) (products : list product) : Z * list call :=
  match products with
  | [] => (0, [])
  | _ => insert_batches S (batches products)
  end.

(** The fallback chain as the spec describes it, for one batch: which
    tiers are tried, in order, and the count each reports. *)
Definition tier_calls (S : storage) (b : list product) : list call :=
  CallBatchRpc b ::
  match batch_insert_listing_api S b with
  | Replies _ => []
  | Raises =>
      CallTableInsert b ::
      match listing_api_insert S b with
      | Replies _ => []
      | Raises => map CallSingleRpc b
      end
  end.

Definition single_reported (S : storage) (p : product) : Z :=
  match safe_insert_listing_api S p with Replies (Some _) => 1 | _ => 0 end.

Definition tier_count (S : storage) (b : list product) : Z :=
  match batch_insert_listing_api S b with
  | Replies data => default 0 data
  | Raises =>
      match listing_api_insert S b with
      | Replies rows => Z.of_nat (length rows)
      | Raises => fold_right Z.add 0 (map (single_reported S) b)
      end
  end.

End BatchInsert.

(** ** [HasakiCrawler.crawl_all], [_crawl_product] and [_crawl_reviews] *)
Module Orchestrator.

Inductive session_status := Completed | Failed.

(** Observable effects of a run, in order. *)
Inductive event :=
| EvStartSession
| EvFetchHome
| EvQueryProductIds
| EvFetchDetail (pid : Z)
| EvStoreProduct (pid : Z)
| EvLatestSnapshot (pid : Z)
| EvWarnNoSnapshot (pid : Z)
| EvFetchReviews (pid : Z)
| EvStoreReviewPage (pid sid page : Z)
| EvFinishSession (status : session_status).

(** What the run's collaborators return: whether [brands.txt] is
    non-empty, whether [start_session] succeeds, the sorted product ids
    [_get_product_ids_from_db] yields (it returns an empty set on error),
    [get_product_detail] ([None] for a failed fetch or an empty payload),
    [store_product] (a snapshot id, or [None] when nothing changed),
    [get_latest_product_snapshot_id], and the page numbers
    [get_product_reviews] returns. *)
Record env := mk_env {
  brand_ids_loaded : bool;
  start_session_ok : bool;
  product_ids_from_db : list Z;
  product_detail : Z -> option Z;
  store_product : Z -> option Z;
  latest_snapshot : Z -> option Z;
  review_pages : Z -> list Z
}.

(** [if snapshot_id:] *)
Definition truthy (o : option Z) : option Z :=
  match o with Some n => if n =? 0 then None else Some n | None => None end.

(** [_crawl_product]: the new [crawled_products], the return value and
    the events. *)
Definition crawl_product (E : env) (crawled : gmap Z Z) (pid : Z)
    : gmap Z Z * bool * list event :=
  match product_detail E pid with
  | None => (crawled, false, [EvFetchDetail pid])
  | Some _ =>
      match truthy (store_product E pid) with
      | Some snapshot_id =>
          (<[pid := snapshot_id]> crawled, true, [EvFetchDetail pid; EvStoreProduct pid])
      | None =>
          match truthy (latest_snapshot E pid) with
          | Some existing =>
              (<[pid := existing]> crawled, true,
               [EvFetchDetail pid; EvStoreProduct pid; EvLatestSnapshot pid])
          | None =>
              (crawled, true,
               [EvFetchDetail pid; EvStoreProduct pid; EvLatestSnapshot pid;
                EvWarnNoSnapshot pid])
          end
      end
  end.

(** Step 3, one product after another (the thread pool only changes the
    order in which distinct keys of [crawled_products] are written). *)
Fixpoint crawl_products (E : env) (crawled : gmap Z Z) (pids : list Z)
    : gmap Z Z * list event :=
  match pids with
  | [] => (crawled, [])
  | pid :: rest =>
      let '(crawled', _, evs) := crawl_product E crawled pid in
      let '(crawled'', evs') := crawl_products E crawled' rest in
      (crawled'', evs ++ evs')
  end.

(** [_crawl_reviews]: [get_product_reviews], then
    [store_reviews_for_product], which stores each page under
    [snapshot_id]. *)
Definition crawl_reviews (E : env) (pid snapshot_id : Z) : list event :=
  EvFetchReviews pid :: map (fun pg => EvStoreReviewPage pid snapshot_id pg) (review_pages E pid).

(** Step 4: one [_crawl_reviews] per entry of [crawled_products]. The
    calls are submitted to a thread pool, so their relative order is not
    fixed; the model takes them in key order. *)
Definition crawl_all_reviews (E : env) (crawled : gmap Z Z) : list event :=
  concat (map (fun '(pid, sid) => crawl_reviews E pid sid) (map_to_list crawled)).

Inductive run_end := RunReturned | RunRaised.

Definition crawl_all (E : env) : list event * run_end :=
  if negb (brand_ids_loaded E) then ([], RunReturned)
  else if negb (start_session_ok E) then
    ([EvStartSession; EvFinishSession Failed], RunRaised)
  else
    let pre := [EvStartSession; EvFetchHome; EvQueryProductIds] in
    match product_ids_from_db E with
    | [] => (pre ++ [EvFinishSession Failed], RunReturned)
    | products_list =>
        let '(crawled, evs3) := crawl_products E ∅ products_list in
        let evs4 := crawl_all_reviews E crawled in
        (pre ++ evs3 ++ evs4 ++ [EvFinishSession Completed], RunReturned)
    end.

(** The snapshot a product's reviews must be attached to, as the spec
    describes it: the new snapshot if the upsert made one, else the
    latest existing one, else none. *)
Definition resolved_snapshot (E : env) (pid : Z) : option Z :=
  match truthy (store_product E pid) with
  | Some sid => Some sid
  | None => truthy (latest_snapshot E pid)
  end.

End Orchestrator.

(** ** [HasakiAPIClient.get_product_reviews_sequential] *)
Module ReviewSequential.
Import ReviewWalk.

(** [while True:] with [fuel] bounding the number of iterations; [None]
    means the loop had not finished within [fuel] iterations.  A reply
    is kept as the pair [(data, metadata)], here the [response]. *)
Fixpoint sequential_loop (fuel : nat) (fetch : Z -> option response)
    (page : Z) (all_reviews : list response) : option (list response) :=
  match fuel with
  | O => None
  | S n =>
      match fetch page with
      | None => Some all_reviews
      | Some r =>
          match reviews_of r with
          | [] => Some all_reviews
          | _ :: _ => sequential_loop n fetch (page + 1) (all_reviews ++ [r])
          end
      end
  end.

Definition get_product_reviews_sequential (fuel : nat)
    (fetch : Z -> option response) : option (list response) :=
  sequential_loop fuel fetch 1 [].

End ReviewSequential.

(** ** Python's [str] and [int] on integers *)
Module PyText.

(** The characters [int()] skips around a number: ASCII space, tab,
    newline, vertical tab, form feed and carriage return. *)
Definition int_space (c : ascii) : bool :=
  let n := nat_of_ascii c in ((9 <=? n) && (n <=? 13))%nat || (n =? 32)%nat.

Definition is_digit (c : ascii) : bool :=
  let n := nat_of_ascii c in ((48 <=? n) && (n <=? 57))%nat.

Definition digit_value (c : ascii) : Z := Z.of_nat (nat_of_ascii c) - 48.

Fixpoint lstrip (p : ascii -> bool) (l : list ascii) : list ascii :=
  match l with
  | [] => []
  | c :: r => if p c then lstrip p r else l
  end.

Definition strip_by (p : ascii -> bool) (l : list ascii) : list ascii :=
  rev (lstrip p (rev (lstrip p l))).

(** Decimal digits after the first one: a digit, or one [_] followed by
    a digit. *)
Fixpoint digits_from (l : list ascii) (acc : Z) : option Z :=
  match l with
  | [] => Some acc
  | c :: r =>
      if is_digit c then digits_from r (10 * acc + digit_value c)
      else if Ascii.eqb c "_"%char then
        match r with
        | d :: r' => if is_digit d then digits_from r' (10 * acc + digit_value d) else None
        | [] => None
        end
      else None
  end.

Definition unsigned (l : list ascii) : option Z :=
  match l with
  | c :: r => if is_digit c then digits_from r (digit_value c) else None
  | [] => None
  end.

(** [int(s)] on ASCII text; [None] is the [ValueError].  (On other text
    [int()] also accepts the non-ASCII decimal digits and spaces, which
    this model rejects.) *)
Definition py_int (s : string) : option Z :=
  match strip_by int_space (list_ascii_of_string s) with
  | c :: r =>
      if Ascii.eqb c "+"%char then unsigned r
      else if Ascii.eqb c "-"%char then option_map Z.opp (unsigned r)
      else unsigned (c :: r)
  | [] => None
  end.

Definition digit_char (d : Z) : ascii := ascii_of_nat (Z.to_nat (48 + d)).

(** The decimal digits of [n >= 0]; [fuel] bounds their number. *)
Fixpoint nat_digits (fuel : nat) (n : Z) : list ascii :=
  match fuel with
  | O => []
  | S f =>
      if n <? 10 then [digit_char n]
      else nat_digits f (n / 10) ++ [digit_char (n mod 10)]
  end.

Definition digits_of (n : Z) : list ascii := nat_digits (S (Z.to_nat (Z.log2 n))) n.

(** [str(z)] for an integer. *)
Definition py_str (z : Z) : string :=
  string_of_list_ascii
    (if z <? 0 then "-"%char :: digits_of (- z) else digits_of z).

Definition ascii_only (s : string) : Prop :=
  Forall (fun c => (nat_of_ascii c < 128)%nat) (list_ascii_of_string s).

End PyText.

(** ** [SupabaseStorage]: the session, write and lookup calls *)
Module Storage.
Import BatchInsert.

(** The keys of [self.stats]. *)
Inductive stat_key :=
| HomeInserted | HomeSkipped | ListingInserted | ListingSkipped
| ProductInserted | ProductSkipped | ReviewInserted | ReviewSkipped | Errors.

#[global] Instance stat_key_eq_dec : EqDecision stat_key.
Proof. solve_decision. Defined.

Definition stats := stat_key -> Z.

(** [self.stats[k] += 1] *)
Definition incr (k : stat_key) (st : stats) : stats :=
  fun k' => if decide (k' = k) then st k' + 1 else st k'.

(** The local [max_retries = 3] of the storage calls. *)
Definition max_retries : Z := 3.

(** [store_product]: [rpc a] is what the [a]-th call of
    [safe_insert_product_api] does (raise, or reply with [result.data]).
    Returns the result, the counters, the sleeps (ms) and the attempts
    that called the RPC. *)
Fixpoint store_product_loop (range : list Z) (rpc : Z -> reply (option Z))
    (st : stats) : option Z * stats * list Z * list Z :=
  match range with
  | [] => (None, st, [], [])
  | attempt :: rest =>
      match rpc attempt with
      | Replies (Some d) =>
          (* [int(result.data) if result.data else None], then [if snapshot_id:];
             a falsy reply falls through to the next attempt *)
          if d =? 0 then
            let '(r, st', sleeps, calls) := store_product_loop rest rpc st in
            (r, st', sleeps, attempt :: calls)
          else (Some d, incr ProductInserted st, [], [attempt])
      | Replies None => (None, incr ProductSkipped st, [], [attempt])
      | Raises =>
          if attempt <? max_retries - 1 then
            let '(r, st', sleeps, calls) := store_product_loop rest rpc st in
            (r, st', 100 * (attempt + 1) :: sleeps, attempt :: calls)
          else (None, incr Errors st, [], [attempt])
      end
  end.

(** [session] says whether [self.session_id] is set. *)
Definition store_product (session : bool) (rpc : Z -> reply (option Z)) (st : stats)
    : option Z * stats * list Z * list Z :=
  if session then store_product_loop (MakeRequest.py_range max_retries) rpc st
  else (None, st, [], []).

Inductive review_outcome := Inserted | Duplicate.

(** [store_review_page], with [rpc a] the [a]-th call of
    [safe_insert_review_api]. *)
Fixpoint store_review_page_loop (range : list Z) (rpc : Z -> reply (option Z))
    (st : stats) : option review_outcome * stats * list Z * list Z :=
  match range with
  | [] => (None, st, [], [])
  | attempt :: rest =>
      match rpc attempt with
      | Replies (Some _) => (Some Inserted, incr ReviewInserted st, [], [attempt])
      | Replies None => (Some Duplicate, incr ReviewSkipped st, [], [attempt])
      | Raises =>
          if attempt <? max_retries - 1 then
            let '(r, st', sleeps, calls) := store_review_page_loop rest rpc st in
            (r, st', 100 * (attempt + 1) :: sleeps, attempt :: calls)
          else (None, incr Errors st, [], [attempt])
      end
  end.

Definition store_review_page (session : bool) (rpc : Z -> reply (option Z)) (st : stats)
    : option review_outcome * stats * list Z * list Z :=
  if session then store_review_page_loop (MakeRequest.py_range max_retries) rpc st
  else (None, st, [], []).

(** The loop of [store_reviews_for_product]; [rpc i] answers the RPC
    calls of the [i]-th page.  Returns [total_inserted], the counters and
    the RPC calls made, as (page number, attempt). *)
Fixpoint store_pages {A} (session : bool) (i : nat) (pages : list (A * Z))
    (rpc : nat -> Z -> reply (option Z)) (st : stats) : Z * stats * list (Z * Z) :=
  match pages with
  | [] => (0, st, [])
  | (_, page_number) :: rest =>
      let '(result, st1, _, calls1) := store_review_page session (rpc i) st in
      let '(n, st2, calls2) := store_pages session (S i) rest rpc st1 in
      ((match result with Some Inserted => 1 | _ => 0 end) + n, st2,
       map (fun a => (page_number, a)) calls1 ++ calls2)
  end.

(** [store_reviews_for_product]: [(total_crawled, total_inserted)], the
    counters and the RPC calls. *)
Definition store_reviews_for_product {A} (session : bool) (review_pages : list (A * Z))
    (rpc : nat -> Z -> reply (option Z)) (st : stats) : Z * Z * stats * list (Z * Z) :=
  match review_pages with
  | [] => (0, 0, st, [])
  | _ :: _ =>
      let '(k, st', calls) := store_pages session 0 review_pages rpc st in
      (Z.of_nat (length review_pages), k, st', calls)
  end.

(** [get_latest_product_snapshot_id] (no session check), with [rpc a]
    the [a]-th RPC call.  Returns the result, the sleeps and the
    attempts. *)
Fixpoint latest_snapshot_loop (range : list Z) (rpc : Z -> reply (option Z))
    : option Z * list Z * list Z :=
  match range with
  | [] => (None, [], [])
  | attempt :: rest =>
      match rpc attempt with
      | Replies data =>
          (* [result.data if result.data else None] *)
          (match data with Some d => if d =? 0 then None else Some d | None => None end,
           [], [attempt])
      | Raises =>
          if attempt <? max_retries - 1 then
            let '(r, sleeps, calls) := latest_snapshot_loop rest rpc in
            (r, 100 * (attempt + 1) :: sleeps, attempt :: calls)
          else (None, [], [attempt])
      end
  end.

Definition get_latest_product_snapshot_id (rpc : Z -> reply (option Z))
    : option Z * list Z * list Z :=
  latest_snapshot_loop (MakeRequest.py_range max_retries) rpc.

(** [store_home]: the result, the counters and the number of RPC calls. *)
Definition store_home (session : bool) (rpc : reply (option Z)) (st : stats)
    : bool * stats * nat :=
  if negb session then (false, st, 0%nat)
  else
    match rpc with
    | Replies (Some _) => (true, incr HomeInserted st, 1%nat)
    | Replies None => (true, incr HomeSkipped st, 1%nat)
    | Raises => (false, incr Errors st, 1%nat)
    end.

(** Step 1 of [HasakiCrawler.crawl_all]: [get_home] raises or returns
    data whose truthiness is given; then [store_home].  Threads
    [total_items], [skipped_items], the storage counters and the
    crawler's [errors] count. *)
Definition crawl_home_step (home : reply bool) (session : bool) (rpc : reply (option Z))
    (st : stats) (total_items skipped_items crawler_errors : Z) : Z * Z * stats * Z :=
  match home with
  | Raises => (total_items, skipped_items, st, crawler_errors + 1)
  | Replies home_truthy =>
      if home_truthy then
        let '(home_id, st', _) := store_home session rpc st in
        if home_id then (total_items + 1, skipped_items, st', crawler_errors)
        else (total_items, skipped_items + 1, st', crawler_errors)
      else (total_items, skipped_items, st, crawler_errors)
  end.

End Storage.

(** ** [HasakiCrawler._get_product_ids_from_db] and the sorting of step 3 *)
Module ProductIds.
Import BatchInsert PyText.

(** The query raises, or returns the rows' [product_id] (text, or
    [None] for NULL).  [int(None)] and [int] of a non-integer text raise
    inside the set comprehension, and the [except] returns [set()]. *)
Definition get_product_ids_from_db (q : reply (list (option string))) : gset Z :=
  match q with
  | Raises => ∅
  | Replies [] => ∅
  | Replies rows =>
      match mapM (fun o => o ≫= py_int) rows with
      | Some ids => list_to_set ids
      | None => ∅
      end
  end.

(** [products_list = sorted(target_product_ids)] *)
Definition products_list (ids : gset Z) : list Z := merge_sort Z.le (elements ids).

End ProductIds.

(** ** [ListingCrawler._crawl_category] *)
Module CategoryCrawl.
Import BatchInsert PyText.

(** An [id] value of the listing JSON: an integer or a string. *)
Inductive jid := JInt (z : Z) | JStr (s : string).

Definition jid_truthy (j : jid) : bool :=
  match j with JInt z => negb (z =? 0) | JStr s => negb (String.eqb s ""%string) end.

(** [str(...)] of an id. *)
Definition jid_str (j : jid) : string :=
  match j with JInt z => py_str z | JStr s => s end.

(** [item.get("brand", {})]: a dict with an optional [id], or another
    value. *)
Inductive brand_value := BrandDict (bid : option jid) | BrandNotDict.

Record item := mk_item { item_id : option jid; item_brand : brand_value }.

(** The record appended to [products_to_insert] for one item, if any. *)
Definition item_product (it : item) : option product :=
  match item_id it with
  | Some pid =>
      if jid_truthy pid then
        Some (mk_product (jid_str pid)
                (match item_brand it with
                 | BrandDict (Some b) => if jid_truthy b then Some (jid_str b) else None
                 | _ => None
                 end))
      else None
  | None => None
  end.

Record category_result := mk_category_result {
  cr_products : Z; cr_inserted : Z; cr_pages : Z; cr_error : bool
}.

(** [listing] is what [get_product_ids_from_category] does: raise, or
    return the pages' [listing] arrays. *)
Definition crawl_category (listing : reply (list (list item))) (S : storage)
    : category_result * list call :=
  match listing with
  | Raises => (mk_category_result 0 0 0 true, [])
  | Replies pages =>
      let category_products := fold_right (fun l n => Z.of_nat (length l) + n) 0 pages in
      let products_to_insert := omap item_product (concat pages) in
      let '(inserted, calls) := batch_insert_products S products_to_insert in
      (mk_category_result category_products inserted (Z.of_nat (length pages)) false, calls)
  end.

End CategoryCrawl.

(** ** [get_all_leaves] of [find_brands] *)
Module BrandLeaves.
Import Categories.

Definition high_end_name : string := "Mỹ Phẩm High-End"%string.

(** [cat.get("name") in ["Mỹ Phẩm High-End"]] *)
Definition skipped_name (name : option string) : bool :=
  match name with Some n => String.eqb n high_end_name | None => false end.

(** The body of the loop for one category.  A [child] value that is not
    a list is outside the model ([None]): a falsy one makes a leaf, a
    truthy one is iterated over. *)
Fixpoint all_leaves_cat (cat : category) : option (list category) :=
  match cat with
  | Cat _ name child =>
      if skipped_name name then Some []
      else
        match child with
        | NoChildKey | ChildList [] => Some [cat]
        | ChildList (c :: cs) => fmap (@concat category) (mapM all_leaves_cat (c :: cs))
        | ChildNotList => None
        end
  end.

Definition get_all_leaves (cat_list : list category) : option (list category) :=
  fmap (@concat category) (mapM all_leaves_cat cat_list).

(** No node of the tree has a non-list [child]. *)
Fixpoint children_lists (cat : category) : bool :=
  match cat with
  | Cat _ _ child =>
      match child with
      | ChildNotList => false
      | NoChildKey => true
      | ChildList l => forallb children_lists l
      end
  end.

(** No node of the tree carries the skipped name. *)
Fixpoint no_skipped_name (cat : category) : bool :=
  match cat with
  | Cat _ name child =>
      negb (skipped_name name)
      && match child with ChildList l => forallb no_skipped_name l | _ => true end
  end.

End BrandLeaves.

(** ** [Config.load_brand_ids] *)
Module BrandsFile.
Import PyText.

(** [str.isspace] on ASCII characters. *)
Definition str_space (c : ascii) : bool :=
  let n := nat_of_ascii c in ((9 <=? n) && (n <=? 13))%nat || ((28 <=? n) && (n <=? 32))%nat.

(** [s.strip()] *)
Definition strip (l : list ascii) : list ascii := strip_by str_space l.

(** [s.split(sep)] *)
Fixpoint split_on (sep : ascii) (l : list ascii) : list (list ascii) :=
  match l with
  | [] => [[]]
  | c :: r =>
      if Ascii.eqb c sep then [] :: split_on sep r
      else match split_on sep r with
           | w :: ws => (c :: w) :: ws
           | [] => [[c]]
           end
  end.

Definition contains (c : ascii) (l : list ascii) : bool := existsb (Ascii.eqb c) l.

(** [id_str.strip()], then the inline-comment cut. *)
Definition clean_token (tok : list ascii) : list ascii :=
  let t := strip tok in
  if contains "#" t then strip (hd [] (split_on "#" t)) else t.

(** The pieces of a stripped line: split on [;] if it has one, else on
    [,] if it has one, else the whole line. *)
Definition pieces (l : list ascii) : list (list ascii) :=
  if contains ";" l then split_on ";" l
  else if contains "," l then split_on "," l
  else [l].

(** [if id_str: try: brand_ids.append(int(id_str)) except ValueError: ...] *)
Definition token_id (tok : list ascii) : option Z :=
  match clean_token tok with
  | [] => None
  | t => py_int (string_of_list_ascii t)
  end.

(** The ids one line of the file contributes. *)
Definition line_ids (line : string) : list Z :=
  let l := strip (list_ascii_of_string line) in
  match l with
  | [] => []
  | c :: _ => if Ascii.eqb c "#" then [] else omap token_id (pieces l)
  end.

(** [None]: [brands.txt] does not exist; otherwise its lines.  The result
    is [list(set(brand_ids))], whose order Python leaves unspecified. *)
Definition load_brand_ids (file : option (list string)) : list Z :=
  match file with
  | None => []
  | Some lines => remove_dups (concat (map line_ids lines))
  end.

End BrandsFile.

(** ** Facts about the review walk *)
Module ReviewWalkFacts.
Import ReviewWalk.

Lemma walk_preserves (P : walk_state -> Prop) fetch max_pages :
  (forall s, P s -> page s <= max_pages -> P (state_of (loop_body fetch s))) ->
  forall n s, P s -> P (walk n fetch max_pages s).
Proof.
  intros Hstep n. induction n as [|n IH]; intros s Hs; simpl; [exact Hs|].
  destruct (Z.leb_spec (page s) max_pages) as [Hle|Hgt]; [|exact Hs].
  pose proof (Hstep s Hs Hle) as H'.
  destruct (loop_body fetch s); simpl in H'; [apply IH|]; exact H'.
Qed.

Lemma loop_body_page fetch s :
  page (state_of (loop_body fetch s)) = page s
  \/ page (state_of (loop_body fetch s)) = page s + 1.
Proof.
  unfold loop_body; cbv zeta.
  destruct (fetch (page s)) as [r|].
  - destruct (reviews_of r); [simpl; auto|].
    destruct (_ && _); simpl; auto.
  - destruct (_ <=? _); simpl; auto.
Qed.

Lemma reachable_page_pos fetch max_pages s :
  reachable fetch max_pages s -> 1 <= page s.
Proof.
  induction 1 as [|s s' _ IH _ Hs].
  - simpl; lia.
  - pose proof (loop_body_page fetch s) as Hp. rewrite Hs in Hp. simpl in Hp. lia.
Qed.

(** The walk from the initial state passes through every reachable
    state, with fuel left over. *)
Lemma walk_through fetch max_pages s :
  reachable fetch max_pages s ->
  forall n, (Z.to_nat (page s) - 1 <= n)%nat ->
  walk n fetch max_pages init_state
  = walk (n - (Z.to_nat (page s) - 1)) fetch max_pages s.
Proof.
  induction 1 as [|s s' Hr IH Hle Hs]; intros n Hn.
  - simpl. now rewrite Nat.sub_0_r.
  - pose proof (reachable_page_pos _ _ _ Hr) as Hpos.
    pose proof (loop_body_page fetch s) as Hp. rewrite Hs in Hp. simpl in Hp.
    destruct Hp as [Hp|Hp].
    { (* a [Continue] always moves to the next page *)
      exfalso. revert Hs Hp. unfold loop_body; cbv zeta.
      destruct (fetch (page s)) as [r|].
      - destruct (reviews_of r); [discriminate|].
        destruct (_ && _); [discriminate|]. intros [= <-]. simpl. lia.
      - destruct (_ <=? _); [discriminate|]. intros [= <-]. simpl. lia. }
    rewrite (IH n) by lia.
    replace (n - (Z.to_nat (page s) - 1))%nat
      with (S (n - (Z.to_nat (page s') - 1)))%nat by lia.
    simpl. destruct (Z.leb_spec (page s) max_pages); [|lia].
    now rewrite Hs.
Qed.

(** Once a reachable iteration breaks, its state is the walk's result. *)
Lemma run_breaks_at fetch max_pages s s' :
  reachable fetch max_pages s -> page s <= max_pages ->
  loop_body fetch s = Break s' -> run fetch max_pages = s'.
Proof.
  intros Hr Hle Hb. pose proof (reachable_page_pos _ _ _ Hr) as Hpos.
  unfold run. rewrite (walk_through _ _ _ Hr) by lia.
  replace (Z.to_nat max_pages - (Z.to_nat (page s) - 1))%nat
    with (S (Z.to_nat max_pages - Z.to_nat (page s)))%nat by lia.
  simpl. destruct (Z.leb_spec (page s) max_pages); [|lia].
  now rewrite Hb.
Qed.

Lemma fail_run_succ fetch p :
  1 <= p ->
  fail_run fetch p
  = match fetch p with None => fail_run fetch (p - 1) + 1 | Some _ => 0 end.
Proof.
  intros Hp. unfold fail_run.
  replace (Z.to_nat p) with (S (Z.to_nat (p - 1))) by lia.
  cbn [fail_run_nat].
  replace (Z.of_nat (S (Z.to_nat (p - 1)))) with p by lia.
  reflexivity.
Qed.

End ReviewWalkFacts.

(** ** Claims about the review walk *)
Module ReviewWalkClaims.
Import ReviewWalk ReviewWalkFacts.

Definition ceiling_inv (m : Z) (s : walk_state) : Prop :=
  1 <= page s
  /\ (page s = 1 \/ calculated_max_pages s = Some m)
  /\ (forall e, In e (all_reviews s) -> snd e <= m).

Lemma ceiling_step fetch r1 m s :
  fetch 1 = Some r1 -> 0 < total_of r1 ->
  m = (total_of r1 + PAGE_SIZE - 1) / PAGE_SIZE ->
  ceiling_inv m s -> ceiling_inv m (state_of (loop_body fetch s)).
Proof.
  intros Hf1 HT Hm (Hp & Hc & Hall). unfold ceiling_inv.
  assert (Hm1 : 1 <= m) by (subst m; unfold PAGE_SIZE; apply Z.div_le_lower_bound; lia).
  unfold loop_body; cbv zeta.
  destruct (fetch (page s)) as [r|] eqn:Hf.
  - assert (Hcmp : (if (page s =? 1) && (0 <? total_of r)
                    then Some ((total_of r + PAGE_SIZE - 1) / PAGE_SIZE)
                    else calculated_max_pages s) = Some m).
    { destruct (Z.eq_dec (page s) 1) as [E|E].
      - rewrite E in Hf. rewrite Hf1 in Hf. injection Hf as <-.
        rewrite E. simpl. destruct (Z.ltb_spec 0 (total_of r1)); [|lia].
        now subst m.
      - destruct Hc as [Hc|Hc]; [contradiction|].
        destruct (Z.eqb_spec (page s) 1); [contradiction|]. exact Hc. }
    rewrite Hcmp.
    destruct (reviews_of r) as [|x xs].
    + simpl. repeat split; auto.
    + unfold truthy_opt. destruct (Z.eqb_spec m 0); [lia|].
      destruct (Z.ltb_spec m (page s)); simpl.
      * repeat split; auto.
      * repeat split; [lia|auto|].
        intros e He. apply in_app_or in He as [He|He]; [auto|].
        destruct He as [<-|[]]. simpl. lia.
  - destruct Hc as [Hc|Hc]; [rewrite Hc in Hf; congruence|].
    destruct (_ <=? _); simpl; repeat split; auto; lia.
Qed.

(** C1: when page 1 is fetched and declares [total = T > 0], the walk
    fixes [max_page = ceil(T / 5)] (computed as [(T + 5 - 1) / 5]) and
    returns no page whose number exceeds it, whatever later fetches
    return. *)
Theorem reviews_never_beyond_declared_total fetch max_pages r1 :
  fetch 1 = Some r1 -> 0 < total_of r1 ->
  let m := (total_of r1 + PAGE_SIZE - 1) / PAGE_SIZE in
  PAGE_SIZE * (m - 1) < total_of r1 <= PAGE_SIZE * m
  /\ forall e, In e (get_product_reviews fetch max_pages) -> snd e <= m.
Proof.
  intros Hf1 HT m. split.
  - subst m. unfold PAGE_SIZE.
    pose proof (Z.div_mod (total_of r1 + 5 - 1) 5 ltac:(lia)).
    pose proof (Z.mod_pos_bound (total_of r1 + 5 - 1) 5 ltac:(lia)). lia.
  - assert (Hinv : ceiling_inv m (run fetch max_pages)).
    { unfold run. apply walk_preserves.
      - intros s Hs _. eapply ceiling_step; eauto.
      - unfold ceiling_inv; simpl. repeat split; [lia|auto|]. intros e []. }
    apply Hinv.
Qed.

Lemma reachable_counter fetch max_pages s :
  reachable fetch max_pages s ->
  consecutive_failures s = fail_run fetch (page s - 1)
  /\ consecutive_failures s < max_consecutive_failures
  /\ 1 <= page s.
Proof.
  unfold max_consecutive_failures.
  induction 1 as [|s s' Hr IH Hle Hs].
  - simpl. split; [reflexivity|]. lia.
  - destruct IH as (Hc & Hlt & Hp).
    revert Hs. unfold loop_body; cbv zeta.
    destruct (fetch (page s)) as [r|] eqn:Hf.
    + destruct (reviews_of r); [discriminate|].
      destruct (_ && _); [discriminate|]. intros [= <-]. simpl.
      rewrite Z.add_simpl_r, fail_run_succ, Hf by lia. repeat split; lia.
    + unfold max_consecutive_failures.
      destruct (Z.leb_spec 3 (consecutive_failures s + 1)); [discriminate|].
      intros [= <-]. simpl.
      rewrite Z.add_simpl_r, fail_run_succ, Hf by lia. repeat split; lia.
Qed.

(** C2: along the walk the consecutive-failure counter equals the number
    of soft failures immediately before the current page and stays below
    3; a soft failure adds one to it, keeps the collected pages and moves
    to the next page, and stops the walk exactly when the counter reaches
    3; a successful fetch resets it to 0; and when the walk stops, it
    returns the pages collected up to that point. *)
Theorem review_walk_failure_counter fetch max_pages s :
  reachable fetch max_pages s -> page s <= max_pages ->
  consecutive_failures s = fail_run fetch (page s - 1)
  /\ consecutive_failures s < max_consecutive_failures
  /\ (fetch (page s) = None ->
      let o := loop_body fetch s in
      consecutive_failures (state_of o) = consecutive_failures s + 1
      /\ consecutive_failures (state_of o) = fail_run fetch (page s)
      /\ all_reviews (state_of o) = all_reviews s
      /\ (is_break o = true
          <-> consecutive_failures (state_of o) = max_consecutive_failures)
      /\ (is_break o = false -> page (state_of o) = page s + 1))
  /\ (forall r, fetch (page s) = Some r ->
      consecutive_failures (state_of (loop_body fetch s)) = 0)
  /\ (forall s', loop_body fetch s = Break s' ->
      get_product_reviews fetch max_pages = all_reviews s').
Proof.
  intros Hr Hle.
  destruct (reachable_counter _ _ _ Hr) as (Hc & Hlt & Hp).
  split; [exact Hc|]. split; [exact Hlt|]. split; [|split].
  - intros Hf o. subst o. unfold loop_body; cbv zeta. rewrite Hf.
    rewrite (fail_run_succ fetch (page s)), Hf by lia.
    unfold max_consecutive_failures in *.
    destruct (Z.leb_spec 3 (consecutive_failures s + 1)); simpl;
      repeat split; try lia; discriminate.
  - intros r Hf. unfold loop_body; cbv zeta. rewrite Hf.
    destruct (reviews_of r); [reflexivity|].
    destruct (_ && _); reflexivity.
  - intros s' Hb. unfold get_product_reviews.
    now rewrite (run_breaks_at fetch max_pages s s').
Qed.

Definition bounds_inv (max_pages : Z) (s : walk_state) : Prop :=
  1 <= page s
  /\ (forall q, In q (requested s) -> 1 <= q <= max_pages)
  /\ (forall e, In e (all_reviews s) -> 1 <= snd e <= max_pages).

Ltac in_snoc H :=
  apply in_app_or in H as [H|[H|[]]].

Lemma bounds_step fetch max_pages s :
  bounds_inv max_pages s -> page s <= max_pages ->
  bounds_inv max_pages (state_of (loop_body fetch s)).
Proof.
  intros (Hp & Hq & He) Hle. unfold bounds_inv, loop_body; cbv zeta.
  destruct (fetch (page s)) as [r|];
    [destruct (reviews_of r); [|destruct (_ && _)] | destruct (_ <=? _)];
    simpl; (split; [lia|split]);
    try (intros q Hin; in_snoc Hin; [auto|subst; lia]);
    try (intros e Hin; in_snoc Hin; [auto|subst; simpl; lia]);
    auto.
Qed.

(** C8: for every [max_pages] (50 by default), the walk requests no page
    number above [max_pages] and returns no page numbered above it. *)
Theorem reviews_within_max_pages fetch max_pages :
  (forall q, In q (requested (run fetch max_pages)) -> 1 <= q <= max_pages)
  /\ (forall e, In e (get_product_reviews fetch max_pages) ->
      1 <= snd e <= max_pages).
Proof.
  assert (Hinv : bounds_inv max_pages (run fetch max_pages)).
  { unfold run. apply walk_preserves.
    - intros s Hs Hle. now apply bounds_step.
    - unfold bounds_inv; simpl. split; [lia|split]; intros ? []. }
  destruct Hinv as (_ & Hq & He). split; [exact Hq|exact He].
Qed.

Lemma ceiling_stays_unset fetch s r :
  (fetch 1 = None \/ exists r1, fetch 1 = Some r1 /\ total_of r1 = 0) ->
  calculated_max_pages s = None -> fetch (page s) = Some r ->
  (if (page s =? 1) && (0 <? total_of r)
   then Some ((total_of r + PAGE_SIZE - 1) / PAGE_SIZE)
   else calculated_max_pages s) = None.
Proof.
  intros H1 Hc Hf. destruct (Z.eqb_spec (page s) 1) as [E|E]; simpl; [|exact Hc].
  rewrite E in Hf. destruct H1 as [H1|(r1 & H1 & Ht)]; [congruence|].
  rewrite H1 in Hf. injection Hf as <-. now rewrite Ht.
Qed.

(** C10: when page 1 soft-fails or declares [total = 0], no ceiling is
    ever computed: [calculated_max_pages] stays unset at every iteration,
    and every non-empty page within [max_pages] is collected and the walk
    goes on, whatever total it declares. *)
Theorem no_ceiling_without_page1_total fetch max_pages :
  (fetch 1 = None \/ exists r1, fetch 1 = Some r1 /\ total_of r1 = 0) ->
  forall s, reachable fetch max_pages s ->
  calculated_max_pages s = None
  /\ (page s <= max_pages -> forall r, fetch (page s) = Some r ->
      reviews_of r <> [] ->
      loop_body fetch s
      = Continue (mk_state (page s + 1) 0 None
                    (all_reviews s ++ [(r, page s)]) (requested s ++ [page s]))).
Proof.
  intros H1 s Hr.
  assert (Hc : calculated_max_pages s = None).
  { induction Hr as [|s s' Hr IH Hle Hs]; [reflexivity|].
    revert Hs. unfold loop_body; cbv zeta.
    destruct (fetch (page s)) as [r|] eqn:Hf.
    - rewrite (ceiling_stays_unset fetch s r H1 IH Hf).
      destruct (reviews_of r); [discriminate|].
      destruct (_ && _); [discriminate|]. now intros [= <-].
    - destruct (_ <=? _); [discriminate|]. now intros [= <-]. }
  split; [exact Hc|].
  intros _ r Hf Hne. unfold loop_body; cbv zeta. rewrite Hf.
  rewrite (ceiling_stays_unset fetch s r H1 Hc Hf).
  destruct (reviews_of r); [contradiction|]. reflexivity.
Qed.

End ReviewWalkClaims.

(** ** Claims about [_make_request] *)
Module MakeRequestClaims.
Import MakeRequest.

Lemma http_error_caught {json} (status : Z) (body : option json) :
  400 <= status < 600 ->
  one_attempt (GetResponse status body) = AttemptExn (HTTPError status)
  /\ caught (HTTPError status) = true.
Proof.
  intros Hs. unfold one_attempt.
  destruct (Z.leb_spec 400 status); [|lia].
  destruct (Z.ltb_spec status 600); [|lia]. auto.
Qed.

(** C3 (counterexample): a 404 reply is an HTTP error status, not a
    connection failure, yet [_make_request] retries it: three attempts
    are made, with sleeps of 50 ms and 100 ms, before [None] is
    returned. *)
Lemma make_request_retries_http_404 :
  make_request (fun _ : Z => @GetResponse unit 404 (Some tt))
  = (Returned None, [50; 100], [0; 1; 2]).
Proof. reflexivity. Qed.

Ltac solve_tried :=
  first
    [ exists 0%nat; split; [lia|]; split; [reflexivity|]; split; [reflexivity|];
      split; [intros a Ha; lia|];
      right; intros e He; change (Z.of_nat 0) with 0 in He; congruence
    | exists 1%nat; split; [lia|]; split; [reflexivity|]; split; [reflexivity|];
      split; [intros a Ha; assert (a = 0%nat) by lia; subst a;
              eexists; split; eassumption|];
      right; intros e He; change (Z.of_nat 1) with 1 in He; congruence
    | exists 2%nat; split; [lia|]; split; [reflexivity|]; split; [reflexivity|];
      split; [intros a Ha; destruct a as [|[|a]]; [| |lia];
              eexists; split; eassumption|];
      left; reflexivity ].

Ltac solve_exhausted :=
  intros Hall;
  first
    [ split; [reflexivity|split; reflexivity]
    | destruct (Hall 0 ltac:(lia)) as (? & ? & ?); congruence
    | destruct (Hall 1 ltac:(lia)) as (? & ? & ?); congruence
    | destruct (Hall 2 ltac:(lia)) as (? & ? & ?); congruence ].

(** C3 (amended): [_make_request] makes at most 3 attempts; it goes on
    to attempt [a + 1] after attempt [a] exactly when attempt [a] raised
    an exception of the [except] clause and [a < 2], sleeping
    [(a + 1) * 50] ms; HTTP error statuses (4xx/5xx, raised by
    [raise_for_status]) are such exceptions; when all 3 attempts raise
    one, it makes all 3 attempts, sleeps 50 ms and then 100 ms, and
    returns [None] instead of raising; an exception of the [except]
    clause never reaches the caller. *)
Theorem make_request_retry_policy {json} (gets : Z -> get_outcome json) :
  let '(res, sleeps, tried) := make_request gets in
  (exists k, (k <= 2)%nat
     /\ tried = map Z.of_nat (seq 0 (S k))
     /\ sleeps = map (fun a => 50 * (Z.of_nat a + 1)) (seq 0 k)
     /\ (forall a, (a < k)%nat ->
         exists e, one_attempt (gets (Z.of_nat a)) = AttemptExn e /\ caught e = true)
     /\ (k = 2%nat \/
         forall e, one_attempt (gets (Z.of_nat k)) = AttemptExn e -> caught e = false))
  /\ ((forall a, 0 <= a < max_retries ->
       exists e, one_attempt (gets a) = AttemptExn e /\ caught e = true) ->
      res = Returned None /\ sleeps = [50; 100] /\ tried = [0; 1; 2])
  /\ (forall e, res = Raised e -> caught e = false)
  /\ (forall status (body : option json), 400 <= status < 600 ->
      one_attempt (GetResponse status body) = AttemptExn (HTTPError status)
      /\ caught (HTTPError status) = true).
Proof.
  unfold make_request, py_range, max_retries. simpl.
  change (Z.of_nat 0) with 0; change (Z.of_nat 1) with 1; change (Z.of_nat 2) with 2.
  destruct (one_attempt (gets 0)) as [d0 s0|e0] eqn:H0;
  [|destruct (caught e0) eqn:C0;
    [destruct (one_attempt (gets 1)) as [d1 s1|e1] eqn:H1;
     [|destruct (caught e1) eqn:C1;
       [destruct (one_attempt (gets 2)) as [d2 s2|e2] eqn:H2;
        [|destruct (caught e2) eqn:C2]|]]|]];
  simpl;
  (split; [solve_tried|split; [solve_exhausted|split;
     [intros e He; congruence|exact (fun st b H => http_error_caught st b H)]]]).
Qed.

End MakeRequestClaims.

(** ** Claims about the listing walk *)
Module ListingWalkClaims.
Import ListingWalk.

Section FirstEmptyPage.
Variable fetch : Z -> option listing_response.
Variable n : nat.
Hypothesis Hnonempty :
  forall k, (1 <= k <= n)%nat ->
  exists r, fetch (Z.of_nat k) = Some r /\ listing r <> [].
Hypothesis Hlast :
  exists r, fetch (Z.of_nat (S n)) = Some r /\ listing r = [].

Lemma listing_loop_pages :
  forall j p acc fuel, (p + j = S n)%nat -> (1 <= p)%nat -> (j < fuel)%nat ->
  exists rs, listing_loop fuel fetch (Z.of_nat p) acc = Some (acc ++ rs)
    /\ map Some rs = map (fun k => fetch (Z.of_nat k)) (seq p j).
Proof.
  induction j as [|j IH]; intros p acc fuel Hpj Hp Hf;
    (destruct fuel as [|fuel]; [lia|]).
  - replace p with (S n) by lia. destruct Hlast as (r & Hr & Hl).
    exists []. cbn [listing_loop]. rewrite Hr, Hl. split; [now rewrite app_nil_r|reflexivity].
  - destruct (Hnonempty p ltac:(lia)) as (r & Hr & Hl).
    destruct (IH (S p) (acc ++ [r]) fuel ltac:(lia) ltac:(lia) ltac:(lia))
      as (rs & Hrun & Hmap).
    exists (r :: rs). cbn [listing_loop]. rewrite Hr.
    destruct (listing r) as [|x xs] eqn:E; [contradiction|].
    rewrite Nat2Z.inj_succ in Hrun. unfold Z.succ in Hrun. rewrite Hrun.
    split; [now rewrite <- app_assoc|]. simpl. now rewrite Hr, Hmap.
Qed.

(** C7: when pages [1..n] are fetched with non-empty listings and page
    [n + 1] is fetched with an empty one, the walk (given more than
    [n] iterations) returns exactly the replies of pages [1..n], in
    page order; the empty page is not included. *)
Theorem listing_walk_stops_at_first_empty :
  forall fuel, (n < fuel)%nat ->
  exists rs, get_product_ids_from_category fuel fetch = Some rs
    /\ map Some rs = map (fun k => fetch (Z.of_nat k)) (seq 1 n).
Proof.
  intros fuel Hf.
  destruct (listing_loop_pages n 1 [] fuel ltac:(lia) ltac:(lia) Hf) as (rs & H & Hm).
  exists rs. split; [exact H|exact Hm].
Qed.
End FirstEmptyPage.

End ListingWalkClaims.

(** ** Claims about [_parse_category_hierarchy] *)
Module CategoriesClaims.
Import Categories.

Lemma traverse_cat_truthy c :
  ids_truthy c = true -> traverse_cat c = map to_leaf (leaves c).
Proof.
  induction c as [cat_id name child IHc] using category_ind'.
  intros H. cbn [ids_truthy] in H. apply andb_prop in H as [Hi Hc].
  destruct cat_id as [i|]; [|discriminate].
  cbn [traverse_cat leaves]. rewrite Hi.
  destruct child as [| |[|c cs]]; try reflexivity.
  revert IHc Hc. generalize (c :: cs) as l. intros l IHl Hl.
  induction l as [|x xs IH]; [reflexivity|].
  inversion IHl as [|? ? Hx Hxs]; subst. apply andb_prop in Hl as [Hx' Hxs'].
  simpl. rewrite map_app, Hx, IH; auto.
Qed.

Lemma traverse_truthy l :
  forallb ids_truthy l = true -> traverse l = map to_leaf (leaves_list l).
Proof.
  induction l as [|c l IH]; intros H; [reflexivity|].
  simpl in H. apply andb_prop in H as [Hc Hl].
  unfold traverse, leaves_list in *. simpl.
  rewrite map_app, traverse_cat_truthy, IH; auto.
Qed.



End CategoriesClaims.

(** ** Claims about [_batch_insert_products] *)
Module BatchInsertClaims.
Import BatchInsert.

Lemma insert_individually_spec S b :
  insert_individually S b = (fold_right Z.add 0 (map (single_reported S) b), map CallSingleRpc b).
Proof.
  induction b as [|p b IH]; [reflexivity|].
  simpl. rewrite IH. unfold single_reported.
  destruct (safe_insert_listing_api S p) as [|[d|]]; reflexivity.
Qed.

Lemma insert_batch_spec S b :
  insert_batch S b = (tier_count S b, tier_calls S b).
Proof.
  unfold insert_batch, tier_count, tier_calls.
  destruct (batch_insert_listing_api S b) as [|[n|]].
  - destruct (listing_api_insert S b); [|reflexivity].
    now rewrite insert_individually_spec.
  - simpl. destruct (Z.eqb_spec n 0); subst; reflexivity.
  - reflexivity.
Qed.

Lemma insert_batches_spec S bs :
  insert_batches S bs
  = (fold_right Z.add 0 (map (tier_count S) bs), concat (map (tier_calls S) bs)).
Proof.
  induction bs as [|b bs IH]; [reflexivity|].
  simpl. rewrite insert_batch_spec, IH. reflexivity.
Qed.

Lemma concat_slices (l : list product) m :
  concat (map (fun i => take batch_size (drop i l))
            (map (fun k => k * batch_size)%nat (seq 0 m)))
  = take (m * batch_size) l.
Proof.
  induction m as [|m IH]; [reflexivity|].
  rewrite seq_S, !map_app, concat_app, IH. cbn [map concat].
  rewrite Nat.add_0_l, app_nil_r, take_take_drop, Nat.mul_succ_l.
  reflexivity.
Qed.

Lemma batch_count_bounds n :
  let m := ((n + batch_size - 1) / batch_size)%nat in
  (n <= m * batch_size)%nat /\ (m * batch_size < n + batch_size)%nat.
Proof.
  cbv zeta. unfold batch_size.
  pose proof (Nat.div_mod (n + 100 - 1) 100 ltac:(lia)).
  pose proof (Nat.mod_upper_bound (n + 100 - 1) 100 ltac:(lia)).
  lia.
Qed.

(** C9: the products are cut into consecutive batches of at most 100
    (all full but the last, none empty) whose concatenation is the
    input; each batch first goes to the bulk RPC, then, only if that
    raised, to the direct table insert, then, only if that raised too,
    to one RPC per record in order; the result is the sum over batches of
    the count the succeeding tier reports (the RPC's integer, the number
    of rows the table insert returns, the number of per-record calls
    with a non-null reply). *)
Theorem batch_insert_products_tiers S products :
  let bs := batches products in
  concat bs = products
  /\ (forall b, In b bs -> (1 <= length b <= batch_size)%nat)
  /\ (forall b, In b (removelast bs) -> length b = batch_size)
  /\ batch_insert_products S products
     = (fold_right Z.add 0 (map (tier_count S) bs), concat (map (tier_calls S) bs)).
Proof.
  intros bs.
  pose proof (batch_count_bounds (length products)) as (Hlo & Hhi).
  split; [|split; [|split]].
  - subst bs. unfold batches, batch_starts. rewrite concat_slices.
    apply take_ge. exact Hlo.
  - intros b Hb. subst bs. unfold batches, batch_starts in Hb.
    rewrite map_map in Hb. apply in_map_iff in Hb as (k & <- & Hk).
    apply in_seq in Hk. rewrite length_take, length_drop.
    unfold batch_size in *. nia.
  - intros b Hb. subst bs. unfold batches, batch_starts in Hb.
    rewrite map_map in Hb.
    remember ((length products + batch_size - 1) / batch_size)%nat as m eqn:Hm.
    destruct m as [|m]; [contradiction|].
    rewrite seq_S, map_app in Hb. cbn [map] in Hb.
    rewrite removelast_last in Hb.
    apply in_map_iff in Hb as (k & <- & Hk). apply in_seq in Hk.
    rewrite length_take, length_drop. unfold batch_size in *. nia.
  - unfold batch_insert_products. destruct products as [|p ps].
    + reflexivity.
    + apply insert_batches_spec.
Qed.

End BatchInsertClaims.

(** ** Claims about the run orchestration *)
Module OrchestratorClaims.
Import Orchestrator.

(** Every entry of [crawled_products] is the snapshot the spec asks for. *)
Definition map_inv (E : env) (m : gmap Z Z) : Prop :=
  forall k s, m !! k = Some s -> resolved_snapshot E k = Some s.

Definition no_review_events (evs : list event) : Prop :=
  (forall q, ~ In (EvFetchReviews q) evs)
  /\ (forall q s pg, ~ In (EvStoreReviewPage q s pg) evs).

Lemma truthy_nonzero o n : truthy o = Some n -> n <> 0.
Proof.
  destruct o as [k|]; simpl; [|discriminate].
  destruct (Z.eqb_spec k 0); [discriminate|]. now intros [= <-].
Qed.

Lemma resolved_nonzero E pid s : resolved_snapshot E pid = Some s -> s <> 0.
Proof.
  unfold resolved_snapshot. destruct (truthy (store_product E pid)) eqn:H.
  - intros [= <-]. eapply truthy_nonzero; eauto.
  - apply truthy_nonzero.
Qed.

Lemma map_inv_insert E m pid s :
  map_inv E m -> resolved_snapshot E pid = Some s -> map_inv E (<[pid := s]> m).
Proof.
  intros Hm Hs k x Hk. destruct (decide (k = pid)) as [->|Hne].
  - rewrite lookup_insert_eq in Hk. congruence.
  - rewrite lookup_insert_ne in Hk by congruence. auto.
Qed.

Lemma crawl_product_facts E m pid :
  map_inv E m ->
  let '(m', _, evs) := crawl_product E m pid in
  map_inv E m'
  /\ (product_detail E pid <> None -> truthy (store_product E pid) = None ->
      In (EvLatestSnapshot pid) evs)
  /\ (product_detail E pid <> None -> resolved_snapshot E pid = None ->
      In (EvWarnNoSnapshot pid) evs)
  /\ no_review_events evs.
Proof.
  intros Hm. unfold crawl_product.
  destruct (product_detail E pid) as [d|] eqn:Hd.
  - destruct (truthy (store_product E pid)) as [sid|] eqn:Hs.
    + split; [apply map_inv_insert; [exact Hm|unfold resolved_snapshot; now rewrite Hs]|].
      split; [discriminate|]. split; [unfold resolved_snapshot; rewrite Hs; discriminate|].
      split; intros; simpl; intuition discriminate.
    + destruct (truthy (latest_snapshot E pid)) as [ex|] eqn:Hl.
      * split; [apply map_inv_insert; [exact Hm|unfold resolved_snapshot; now rewrite Hs]|].
        split; [intros; simpl; tauto|].
        split; [unfold resolved_snapshot; rewrite Hs, Hl; discriminate|].
        split; intros; simpl; intuition discriminate.
      * split; [exact Hm|]. split; [intros; simpl; tauto|].
        split; [intros; simpl; tauto|].
        split; intros; simpl; intuition discriminate.
  - split; [exact Hm|]. split; [congruence|]. split; [congruence|].
    split; intros; simpl; intuition discriminate.
Qed.

Lemma crawl_products_facts E pids :
  forall m, map_inv E m ->
  let '(m', evs) := crawl_products E m pids in
  map_inv E m'
  /\ (forall pid, In pid pids -> product_detail E pid <> None ->
      truthy (store_product E pid) = None -> In (EvLatestSnapshot pid) evs)
  /\ (forall pid, In pid pids -> product_detail E pid <> None ->
      resolved_snapshot E pid = None -> In (EvWarnNoSnapshot pid) evs)
  /\ no_review_events evs.
Proof.
  induction pids as [|pid rest IH]; intros m Hm.
  - simpl. split; [exact Hm|]. split; [intros ? []|]. split; [intros ? []|].
    split; intros; simpl; tauto.
  - simpl.
    pose proof (crawl_product_facts E m pid Hm) as Hp.
    destruct (crawl_product E m pid) as [[m1 b] evs] eqn:Hc.
    destruct Hp as (Hm1 & Hlat & Hwarn & Hno1 & Hno1').
    pose proof (IH m1 Hm1) as Hr.
    destruct (crawl_products E m1 rest) as [m2 evs'] eqn:Hcs.
    destruct Hr as (Hm2 & Hlat' & Hwarn' & Hno2 & Hno2').
    split; [exact Hm2|]. split; [|split; [|split]].
    + intros q [<-|Hq] Hd Hs; apply in_or_app; [left; auto|right; auto].
    + intros q [<-|Hq] Hd Hs; apply in_or_app; [left; auto|right; auto].
    + intros q Hq. apply in_app_or in Hq as [Hq|Hq]; [eapply Hno1|eapply Hno2]; eauto.
    + intros q s pg Hq. apply in_app_or in Hq as [Hq|Hq]; [eapply Hno1'|eapply Hno2']; eauto.
Qed.

Lemma review_events_from_map E m :
  (forall pid sid pg, In (EvStoreReviewPage pid sid pg) (crawl_all_reviews E m) ->
     m !! pid = Some sid)
  /\ (forall pid, In (EvFetchReviews pid) (crawl_all_reviews E m) ->
     exists sid, m !! pid = Some sid).
Proof.
  unfold crawl_all_reviews. split.
  - intros pid sid pg H. apply in_concat in H as (evs & Hevs & Hin).
    apply in_map_iff in Hevs as ([k s] & <- & Hk).
    apply list_elem_of_In, elem_of_map_to_list in Hk.
    unfold crawl_reviews in Hin. destruct Hin as [Hin|Hin]; [discriminate|].
    apply in_map_iff in Hin as (pg' & Heq & _). injection Heq as -> -> _. exact Hk.
  - intros pid H. apply in_concat in H as (evs & Hevs & Hin).
    apply in_map_iff in Hevs as ([k s] & <- & Hk).
    apply list_elem_of_In, elem_of_map_to_list in Hk.
    unfold crawl_reviews in Hin. destruct Hin as [Hin|Hin].
    + injection Hin as ->. eauto.
    + apply in_map_iff in Hin as (pg' & Heq & _). discriminate.
Qed.

Lemma map_inv_empty E : map_inv E ∅.
Proof. intros k s Hk. now apply lookup_empty_Some in Hk. Qed.

Ltac not_in_literal := simpl in *; intuition (discriminate || congruence).

(** C5: a run that loads an empty product-id universe finishes the
    session as [failed] and returns, without fetching any product detail
    or review page and without storing any review page. *)
Theorem empty_universe_fails_before_crawling E :
  In EvQueryProductIds (fst (crawl_all E)) ->
  product_ids_from_db E = [] ->
  exists pre, crawl_all E = (pre ++ [EvFinishSession Failed], RunReturned)
    /\ (forall pid, ~ In (EvFetchDetail pid) pre /\ ~ In (EvFetchReviews pid) pre)
    /\ (forall pid sid pg, ~ In (EvStoreReviewPage pid sid pg) pre).
Proof.
  intros Hq Hids. unfold crawl_all in *.
  destruct (brand_ids_loaded E); cbn [negb] in Hq |- *; [|contradiction].
  destruct (start_session_ok E); cbn [negb] in Hq |- *.
  - rewrite Hids. exists [EvStartSession; EvFetchHome; EvQueryProductIds].
    split; [reflexivity|].
    split; intros; not_in_literal.
  - destruct Hq as [Hq|[Hq|[]]]; discriminate.
Qed.

(** C6: every review page the run stores is stored under the snapshot
    the product resolves to (the new snapshot, else the latest existing
    one), which is non-null and non-zero; when the upsert reports no
    change, the latest snapshot is looked up before any review crawling;
    a product with no snapshot at all gets no review fetch or write, a
    warning is emitted for it, and the run still completes. *)
Theorem review_pages_use_resolved_snapshot E :
  let '(log, fin) := crawl_all E in
  (forall pid sid pg, In (EvStoreReviewPage pid sid pg) log ->
     sid <> 0 /\ resolved_snapshot E pid = Some sid)
  /\ (In EvQueryProductIds log ->
      forall pid, In pid (product_ids_from_db E) -> product_detail E pid <> None ->
      truthy (store_product E pid) = None ->
      exists l1 l2, log = l1 ++ l2 /\ In (EvLatestSnapshot pid) l1 /\ no_review_events l1)
  /\ (forall pid, resolved_snapshot E pid = None ->
      (forall sid pg, ~ In (EvStoreReviewPage pid sid pg) log)
      /\ ~ In (EvFetchReviews pid) log
      /\ (In EvQueryProductIds log -> In pid (product_ids_from_db E) ->
          product_detail E pid <> None -> In (EvWarnNoSnapshot pid) log))
  /\ (In EvQueryProductIds log -> product_ids_from_db E <> [] ->
      fin = RunReturned /\ last log = Some (EvFinishSession Completed)).
Proof.
  unfold crawl_all.
  destruct (brand_ids_loaded E); cbn [negb];
    [|split; [intros ? ? ? []|split; [intros []|split; [intros; simpl; tauto|intros []]]]].
  destruct (start_session_ok E); cbn [negb];
    [|repeat split; intros; simpl in *; intuition (discriminate || congruence)].
  destruct (product_ids_from_db E) as [|p ps] eqn:Hids.
  - repeat split; intros; simpl in *; intuition (discriminate || congruence).
  - pose proof (crawl_products_facts E (p :: ps) ∅ (map_inv_empty E)) as Hf.
    destruct (crawl_products E ∅ (p :: ps)) as [m evs3] eqn:H3.
    destruct Hf as (Hm & Hlat & Hwarn & Hno & Hno').
    destruct (review_events_from_map E m) as (Hrev & Hfetch).
    assert (Hstore : forall pid sid pg,
               In (EvStoreReviewPage pid sid pg)
                 ([EvStartSession; EvFetchHome; EvQueryProductIds]
                  ++ evs3 ++ crawl_all_reviews E m ++ [EvFinishSession Completed]) ->
               resolved_snapshot E pid = Some sid).
    { intros pid sid pg H.
      apply in_app_or in H as [H|H]; [exfalso; not_in_literal|].
      apply in_app_or in H as [H|H]; [exfalso; eapply Hno'; eauto|].
      apply in_app_or in H as [H|H]; [apply Hm; eapply Hrev; eauto|].
      exfalso; not_in_literal. }
    split; [|split; [|split]].
    + intros pid sid pg H. pose proof (Hstore pid sid pg H) as Hr.
      split; [eapply resolved_nonzero; eauto|exact Hr].
    + intros _ pid Hin Hd Hs.
      exists ([EvStartSession; EvFetchHome; EvQueryProductIds] ++ evs3),
             (crawl_all_reviews E m ++ [EvFinishSession Completed]).
      split; [now rewrite <- app_assoc|].
      split; [apply in_or_app; right; eapply Hlat; eauto|].
      split.
      * intros q Hq. apply in_app_or in Hq as [Hq|Hq]; [not_in_literal|eapply Hno; eauto].
      * intros q s pg Hq. apply in_app_or in Hq as [Hq|Hq]; [not_in_literal|eapply Hno'; eauto].
    + intros pid Hnone. split; [|split].
      * intros sid pg H. apply Hstore in H. congruence.
      * intros H.
        apply in_app_or in H as [H|H]; [not_in_literal|].
        apply in_app_or in H as [H|H]; [eapply Hno; eauto|].
        apply in_app_or in H as [H|H]; [|not_in_literal].
        destruct (Hfetch pid H) as (sid & Hsid). apply Hm in Hsid. congruence.
      * intros _ Hin Hd. apply in_or_app; right. apply in_or_app; left. eauto.
    + intros _ _. split; [reflexivity|].
      rewrite !app_assoc. apply last_snoc.
Qed.

End OrchestratorClaims.

(** ** More facts about the review walks *)
Module ReviewWalkMore.
Import ReviewWalk ReviewWalkFacts ReviewSequential.

Lemma strongly_sorted_snoc {A} (R : A -> A -> Prop) (l : list A) (x : A) :
  StronglySorted R l -> (forall y, In y l -> R y x) -> StronglySorted R (l ++ [x]).
Proof.
  induction l as [|a l IH]; intros Hs Hx; simpl.
  - constructor; [constructor|constructor].
  - inversion Hs as [|? ? Hl Ha]; subst. constructor.
    + apply IH; [exact Hl|intros y Hy; apply Hx; right; exact Hy].
    + apply Forall_app. split; [exact Ha|]. constructor; [apply Hx; left; reflexivity|constructor].
Qed.

Definition returned_inv (fetch : Z -> option response) (s : walk_state) : Prop :=
  (forall r p, In (r, p) (all_reviews s) ->
     fetch p = Some r /\ reviews_of r <> [] /\ p < page s)
  /\ StronglySorted Z.lt (map snd (all_reviews s)).

Lemma returned_step fetch s :
  returned_inv fetch s -> returned_inv fetch (state_of (loop_body fetch s)).
Proof.
  intros [Hin Hs]. unfold returned_inv, loop_body; cbv zeta.
  destruct (fetch (page s)) as [r|] eqn:Hf.
  - destruct (reviews_of r) as [|x xs] eqn:Hr; [simpl; split; assumption|].
    destruct (_ && _); simpl; [split; assumption|]. split.
    + intros r' p Hp. apply in_app_or in Hp as [Hp|[Hp|[]]].
      * destruct (Hin r' p Hp) as (? & ? & ?). repeat split; auto. lia.
      * injection Hp as <- <-. repeat split; [exact Hf|rewrite Hr; discriminate|lia].
    + rewrite map_app. apply strongly_sorted_snoc; [exact Hs|].
      intros y Hy. apply in_map_iff in Hy as ([r' p] & <- & Hp).
      destruct (Hin r' p Hp) as (_ & _ & Hlt). simpl. exact Hlt.
  - destruct (_ <=? _); simpl; split; try assumption;
      intros r' p Hp; destruct (Hin r' p Hp) as (? & ? & ?); repeat split; auto; lia.
Qed.

(** Every tuple [get_product_reviews] returns is the reply fetched for its
    page number and carries at least one review, and the page numbers
    strictly increase (so no page is returned twice). *)
Theorem reviews_returned_fetched_nonempty_increasing fetch max_pages :
  (forall r p, In (r, p) (get_product_reviews fetch max_pages) ->
     fetch p = Some r /\ reviews_of r <> [])
  /\ StronglySorted Z.lt (map snd (get_product_reviews fetch max_pages)).
Proof.
  assert (Hinv : returned_inv fetch (run fetch max_pages)).
  { unfold run. apply walk_preserves.
    - intros s Hs _. now apply returned_step.
    - split; [intros r p []|constructor]. }
  destruct Hinv as [Hin Hs]. unfold get_product_reviews. split; [|exact Hs].
  intros r p Hp. destruct (Hin r p Hp) as (? & ? & _). split; assumption.
Qed.

Lemma loop_body_requested fetch s :
  requested (state_of (loop_body fetch s)) = requested s ++ [page s].
Proof.
  unfold loop_body; cbv zeta.
  destruct (fetch (page s)) as [r|].
  - destruct (reviews_of r); [reflexivity|]. destruct (_ && _); reflexivity.
  - destruct (_ <=? _); reflexivity.
Qed.

Lemma continue_page fetch s s' :
  loop_body fetch s = Continue s' -> page s' = page s + 1.
Proof.
  unfold loop_body; cbv zeta.
  destruct (fetch (page s)) as [r|].
  - destruct (reviews_of r); [discriminate|].
    destruct (_ && _); [discriminate|]. now intros [= <-].
  - destruct (_ <=? _); [discriminate|]. now intros [= <-].
Qed.

Lemma continue_requested fetch s s' :
  loop_body fetch s = Continue s' -> requested s' = requested s ++ [page s].
Proof.
  intros H. pose proof (loop_body_requested fetch s) as Hr. now rewrite H in Hr.
Qed.

Lemma break_requested fetch s s' :
  loop_body fetch s = Break s' -> requested s' = requested s ++ [page s].
Proof.
  intros H. pose proof (loop_body_requested fetch s) as Hr. now rewrite H in Hr.
Qed.

(** The walk ends at a reachable loop head whose page is past
    [max_pages], or in an iteration that breaks. *)
Lemma walk_cases fetch max_pages :
  forall n s, reachable fetch max_pages s ->
  (Z.to_nat max_pages + 1 <= n + Z.to_nat (page s))%nat ->
  exists s0, reachable fetch max_pages s0
    /\ ((max_pages < page s0 /\ walk n fetch max_pages s = s0)
        \/ (page s0 <= max_pages /\ loop_body fetch s0 = Break (walk n fetch max_pages s))).
Proof.
  induction n as [|n IH]; intros s Hr Hn;
    pose proof (reachable_page_pos _ _ _ Hr) as Hpos.
  - exists s. split; [exact Hr|left]. split; [lia|reflexivity].
  - cbn [walk]. destruct (Z.leb_spec (page s) max_pages) as [Hle|Hgt].
    + destruct (loop_body fetch s) as [s'|s'] eqn:Hb.
      * pose proof (continue_page _ _ _ Hb) as Hp.
        apply (IH s'); [exact (reach_step fetch max_pages s s' Hr Hle Hb)|lia].
      * exists s. split; [exact Hr|right]. split; [exact Hle|exact Hb].
    + exists s. split; [exact Hr|left]. split; [lia|reflexivity].
Qed.

Lemma reachable_requested fetch max_pages s :
  reachable fetch max_pages s ->
  requested s = map Z.of_nat (seq 1 (Z.to_nat (page s) - 1))
  /\ (page s = 1 \/ page s <= max_pages + 1).
Proof.
  induction 1 as [|s s' Hr IH Hle Hs]; [simpl; auto|].
  destruct IH as [Hq _]. pose proof (reachable_page_pos _ _ _ Hr) as Hpos.
  pose proof (continue_page _ _ _ Hs) as Hp.
  split; [|right; lia].
  rewrite (continue_requested _ _ _ Hs), Hq, Hp.
  replace (Z.to_nat (page s + 1) - 1)%nat with (S (Z.to_nat (page s) - 1)) by lia.
  rewrite seq_S, map_app. simpl. do 2 f_equal. lia.
Qed.

(** The review walk requests pages [1, 2, ..., k] in this order, each
    once, for some [k <= max(0, max_pages)]: it never skips a page
    number or asks for one twice, and with [max_pages <= 0] it requests
    nothing. *)
Theorem review_walk_requests_consecutive_pages fetch max_pages :
  exists k, requested (run fetch max_pages) = map Z.of_nat (seq 1 k)
    /\ Z.of_nat k <= Z.max 0 max_pages.
Proof.
  destruct (walk_cases fetch max_pages (Z.to_nat max_pages) init_state
              (reach_init _ _) ltac:(simpl; lia)) as (s0 & Hr & [[Hgt Hrun]|[Hle Hb]]);
    destruct (reachable_requested _ _ _ Hr) as [Hq Hp];
    pose proof (reachable_page_pos _ _ _ Hr) as Hpos; unfold run.
  - rewrite Hrun, Hq. eexists; split; [reflexivity|]. lia.
  - rewrite (break_requested _ _ _ Hb), Hq.
    exists (Z.to_nat (page s0)). split; [|lia].
    replace (Z.to_nat (page s0)) with (S (Z.to_nat (page s0) - 1)) at 2 by lia.
    rewrite seq_S, map_app. simpl. do 2 f_equal. lia.
Qed.

(** The reply of page [k], for pages known to be fetched. *)
Definition reply_of (fetch : Z -> option response) (k : nat) : response :=
  default (mk_response RDOther 0) (fetch (Z.of_nat k)).

Lemma sequential_pages fetch :
  forall j p acc fuel,
  (1 <= p)%nat ->
  (forall k, (p <= k < p + j)%nat ->
     exists r, fetch (Z.of_nat k) = Some r /\ reviews_of r <> []) ->
  (fetch (Z.of_nat (p + j)) = None
   \/ exists r, fetch (Z.of_nat (p + j)) = Some r /\ reviews_of r = []) ->
  (j < fuel)%nat ->
  sequential_loop fuel fetch (Z.of_nat p) acc = Some (acc ++ map (reply_of fetch) (seq p j)).
Proof.
  induction j as [|j IH]; intros p acc fuel Hp Hok Hend Hf;
    (destruct fuel as [|fuel]; [lia|]); cbn [sequential_loop].
  - rewrite Nat.add_0_r in Hend. rewrite app_nil_r.
    destruct Hend as [He|(r & He & Hr)]; rewrite He; [reflexivity|now rewrite Hr].
  - destruct (Hok p ltac:(lia)) as (r & Hr & Hne).
    rewrite Hr. destruct (reviews_of r) as [|x xs] eqn:E; [contradiction|].
    replace (Z.of_nat p + 1) with (Z.of_nat (S p)) by lia.
    rewrite (IH (S p) (acc ++ [r]) fuel ltac:(lia)).
    + assert (Hp' : reply_of fetch p = r) by (unfold reply_of; now rewrite Hr).
      cbn [seq map]. rewrite Hp'. now rewrite <- app_assoc.
    + intros k Hk. apply Hok. lia.
    + now replace (S p + j)%nat with (p + S j)%nat by lia.
    + lia.
Qed.

(** [get_product_reviews_sequential] stops at the first page that fails
    or carries no review: when pages [1..n] are fetched with reviews and
    page [n + 1] fails or is empty, it returns exactly the replies of
    pages [1..n], in page order (given more than [n] iterations). *)
Theorem sequential_stops_at_first_gap fetch n :
  (forall k, (1 <= k <= n)%nat ->
     exists r, fetch (Z.of_nat k) = Some r /\ reviews_of r <> []) ->
  (fetch (Z.of_nat (S n)) = None
   \/ exists r, fetch (Z.of_nat (S n)) = Some r /\ reviews_of r = []) ->
  forall fuel, (n < fuel)%nat ->
  exists rs, get_product_reviews_sequential fuel fetch = Some rs
    /\ map Some rs = map (fun k => fetch (Z.of_nat k)) (seq 1 n).
Proof.
  intros Hok Hend fuel Hf.
  exists (map (reply_of fetch) (seq 1 n)). split.
  - apply (sequential_pages fetch n 1 [] fuel); auto.
    intros k Hk. apply Hok. lia.
  - rewrite map_map. apply map_ext_in. intros k Hk.
    apply in_seq in Hk. destruct (Hok k ltac:(lia)) as (r & Hr & _).
    unfold reply_of. now rewrite Hr.
Qed.

(** The ceiling page 1 fixes, if any. *)
Definition page1_ceiling (fetch : Z -> option response) : option Z :=
  let t := total_of (reply_of fetch 1) in
  if 0 <? t then Some ((t + PAGE_SIZE - 1) / PAGE_SIZE) else None.

Definition prefix_state (fetch : Z -> option response) (j : nat) : walk_state :=
  mk_state (Z.of_nat j + 1) 0
    (match j with O => None | S _ => page1_ceiling fetch end)
    (map (fun k => (reply_of fetch k, Z.of_nat k)) (seq 1 j))
    (map Z.of_nat (seq 1 j)).

Lemma prefix_reachable fetch max_pages n :
  (forall k, (1 <= k <= n)%nat ->
     exists r, fetch (Z.of_nat k) = Some r /\ reviews_of r <> []) ->
  Z.of_nat (S n) <= max_pages ->
  (forall m, page1_ceiling fetch = Some m -> Z.of_nat n <= m) ->
  forall j, (j <= n)%nat -> reachable fetch max_pages (prefix_state fetch j).
Proof.
  intros Hok Hmax Hceil. induction j as [|j IH]; intros Hj; [apply reach_init|].
  apply (reach_step fetch max_pages (prefix_state fetch j)); [apply IH; lia|simpl; lia|].
  destruct (Hok (S j) ltac:(lia)) as (r & Hr & Hne).
  unfold loop_body, prefix_state; cbn [page consecutive_failures calculated_max_pages
    all_reviews requested].
  replace (Z.of_nat j + 1) with (Z.of_nat (S j)) by lia. rewrite Hr.
  destruct (reviews_of r) as [|x xs] eqn:E; [contradiction|].
  assert (Hc : (if (Z.of_nat (S j) =? 1) && (0 <? total_of r)
                then Some ((total_of r + PAGE_SIZE - 1) / PAGE_SIZE)
                else match j with O => None | S _ => page1_ceiling fetch end)
               = page1_ceiling fetch).
  { destruct j as [|j'].
    - unfold page1_ceiling, reply_of. simpl in Hr |- *. rewrite Hr. reflexivity.
    - destruct (Z.eqb_spec (Z.of_nat (S (S j'))) 1); [lia|reflexivity]. }
  rewrite Hc.
  assert (Hno : (truthy_opt (page1_ceiling fetch)
                 && match page1_ceiling fetch with
                    | Some m => m <? Z.of_nat (S j) | None => false end) = false).
  { destruct (page1_ceiling fetch) as [m|] eqn:Hm; [|reflexivity].
    specialize (Hceil m eq_refl). destruct (Z.ltb_spec m (Z.of_nat (S j))); [lia|].
    apply andb_false_r. }
  assert (Hrj : reply_of fetch (S j) = r) by (unfold reply_of; now rewrite Hr).
  rewrite Hno. f_equal. unfold prefix_state. f_equal;
    rewrite seq_S, map_app; simpl; try rewrite Hrj; repeat f_equal; lia.
Qed.

(** When pages [1..n] are fetched with reviews, page [n + 1 <= max_pages]
    is fetched with none, and the ceiling page 1 declares (if any) is at
    least [n], [get_product_reviews] returns the replies of pages [1..n]
    numbered [1..n], and [get_product_reviews_sequential] returns the
    same replies. *)
Theorem review_walks_agree fetch max_pages n :
  (forall k, (1 <= k <= n)%nat ->
     exists r, fetch (Z.of_nat k) = Some r /\ reviews_of r <> []) ->
  (exists r, fetch (Z.of_nat (S n)) = Some r /\ reviews_of r = []) ->
  Z.of_nat (S n) <= max_pages ->
  (forall r1, fetch 1 = Some r1 -> 0 < total_of r1 ->
     Z.of_nat n <= (total_of r1 + PAGE_SIZE - 1) / PAGE_SIZE) ->
  map snd (get_product_reviews fetch max_pages) = map Z.of_nat (seq 1 n)
  /\ get_product_reviews_sequential (S n) fetch
     = Some (map fst (get_product_reviews fetch max_pages)).
Proof.
  intros Hok (rn & Hrn & Hempty) Hmax Hceil.
  assert (Hceil' : forall m, page1_ceiling fetch = Some m -> Z.of_nat n <= m).
  { intros m. unfold page1_ceiling.
    destruct (Z.ltb_spec 0 (total_of (reply_of fetch 1))); [|discriminate].
    intros [= <-]. destruct n as [|n']; [apply Z.div_pos; unfold PAGE_SIZE; lia|].
    destruct (Hok 1%nat ltac:(lia)) as (r1 & Hr1 & _). simpl in Hr1.
    unfold reply_of in *. simpl in *. rewrite Hr1 in *. simpl in *. auto. }
  pose proof (prefix_reachable fetch max_pages n Hok Hmax Hceil' n (le_n _)) as Hr.
  assert (Hb : exists s', loop_body fetch (prefix_state fetch n) = Break s'
                          /\ all_reviews s' = all_reviews (prefix_state fetch n)).
  { unfold loop_body, prefix_state. cbn [page all_reviews]. replace (Z.of_nat n + 1) with (Z.of_nat (S n)) by lia.
    rewrite Hrn, Hempty. eexists; split; reflexivity. }
  destruct Hb as (s' & Hb & Hs').
  assert (Hrun : get_product_reviews fetch max_pages
                 = map (fun k => (reply_of fetch k, Z.of_nat k)) (seq 1 n)).
  { unfold get_product_reviews.
    rewrite (run_breaks_at fetch max_pages (prefix_state fetch n) s' Hr) by (simpl; lia || exact Hb).
    rewrite Hs'. reflexivity. }
  rewrite Hrun, !map_map. split; [reflexivity|].
  unfold get_product_reviews_sequential.
  replace 1 with (Z.of_nat 1) by reflexivity.
  rewrite (sequential_pages fetch n 1 [] (S n)); auto.
  - intros k Hk. apply Hok. lia.
  - right. exists rn. now replace (1 + n)%nat with (S n) by lia.
Qed.

End ReviewWalkMore.

(** ** [_make_request]: how the first non-retried attempt decides the result *)
Module MakeRequestMore.
Import MakeRequest.

(** When attempts [0 .. k-1] raise an exception of the [except] clause and
    attempt [k] (one of the three) does not, [_make_request] makes exactly
    the attempts [0 .. k], sleeps [(a + 1) * 50] ms after each failed one,
    and returns attempt [k]'s data and status, or raises attempt [k]'s
    exception when that one is outside the [except] clause. *)
Theorem make_request_first_decisive {json} (gets : Z -> get_outcome json) (k : nat) :
  (k <= 2)%nat ->
  (forall a, (a < k)%nat ->
     exists e, one_attempt (gets (Z.of_nat a)) = AttemptExn e /\ caught e = true) ->
  (forall e, one_attempt (gets (Z.of_nat k)) = AttemptExn e -> caught e = false) ->
  make_request gets =
    (match one_attempt (gets (Z.of_nat k)) with
     | AttemptOk d status => Returned (Some (d, status))
     | AttemptExn e => Raised e
     end,
     map (fun a => 50 * (Z.of_nat a + 1)) (seq 0 k),
     map Z.of_nat (seq 0 (S k))).
Proof.
  intros Hk Hbefore Hk_ok.
  unfold make_request, py_range, max_retries. simpl.
  destruct k as [|[|[|k]]]; [| | |lia]; simpl in *;
  change (Z.of_nat 0) with 0 in *; change (Z.of_nat 1) with 1 in *;
  change (Z.of_nat 2) with 2 in *.
  - destruct (one_attempt (gets 0)) as [d s|e] eqn:E; [reflexivity|].
    now rewrite (Hk_ok e eq_refl).
  - destruct (Hbefore 0%nat ltac:(lia)) as (e0 & E0 & C0).
    change (Z.of_nat 0) with 0 in E0. rewrite E0, C0. simpl.
    destruct (one_attempt (gets 1)) as [d s|e] eqn:E; [reflexivity|].
    now rewrite (Hk_ok e eq_refl).
  - destruct (Hbefore 0%nat ltac:(lia)) as (e0 & E0 & C0).
    destruct (Hbefore 1%nat ltac:(lia)) as (e1 & E1 & C1).
    change (Z.of_nat 0) with 0 in E0; change (Z.of_nat 1) with 1 in E1.
    rewrite E0, C0. simpl. rewrite E1, C1. simpl.
    destruct (one_attempt (gets 2)) as [d s|e] eqn:E; [reflexivity|].
    now rewrite (Hk_ok e eq_refl).
Qed.

(** A status [_make_request] returns is never an HTTP error status
    (4xx or 5xx): [raise_for_status] turned those into retries. *)
Theorem make_request_returned_status {json} (gets : Z -> get_outcome json) d status
    sleeps tried :
  make_request gets = (Returned (Some (d, status)), sleeps, tried) ->
  ~ (400 <= status < 600).
Proof.
  assert (Hone : forall g d' s', one_attempt (json:=json) g = AttemptOk d' s' ->
                 ~ (400 <= s' < 600)).
  { intros [e|s b] d' s' H; simpl in H; [discriminate|].
    destruct ((400 <=? s) && (s <? 600)) eqn:E; [discriminate|].
    destruct b; inversion H; subst.
    apply andb_false_iff in E as [E|E]; [apply Z.leb_gt in E|apply Z.ltb_ge in E]; lia. }
  unfold make_request, py_range, max_retries. simpl.
  change (Z.of_nat 0) with 0; change (Z.of_nat 1) with 1; change (Z.of_nat 2) with 2.
  destruct (one_attempt (gets 0)) as [d0 s0|e0] eqn:H0;
  [|destruct (caught e0) eqn:C0;
    [destruct (one_attempt (gets 1)) as [d1 s1|e1] eqn:H1;
     [|destruct (caught e1) eqn:C1;
       [destruct (one_attempt (gets 2)) as [d2 s2|e2] eqn:H2;
        [|destruct (caught e2) eqn:C2]|]]|]];
  simpl; intros H; inversion H; subst; eauto.
Qed.

End MakeRequestMore.

(** ** The storage calls *)
Module StorageFacts.
Import BatchInsert Storage.

Lemma incr_other k k' st : k' <> k -> incr k st k' = st k'.
Proof. intros H. unfold incr. now destruct (decide (k' = k)). Qed.

Lemma incr_same k st : incr k st k = st k + 1.
Proof. unfold incr. now destruct (decide (k = k)). Qed.

Ltac page_outcome :=
  split; [|split; [reflexivity|split; [lia|reflexivity]]];
  solve [ left; split; reflexivity
        | right; left; split; reflexivity
        | right; right; split; reflexivity ].

Lemma store_review_page_session rpc st :
  let '(r, st', _, calls) := store_review_page true rpc st in
  exists k n,
    ((k = ReviewInserted /\ r = Some Inserted)
     \/ (k = ReviewSkipped /\ r = Some Duplicate)
     \/ (k = Errors /\ r = None))
    /\ st' = incr k st
    /\ (1 <= n <= 3)%nat
    /\ calls = map Z.of_nat (seq 0 n).
Proof.
  simpl. unfold MakeRequest.py_range, max_retries. simpl.
  change (Z.of_nat 0) with 0; change (Z.of_nat 1) with 1; change (Z.of_nat 2) with 2.
  destruct (rpc 0) as [|[d0|]]; try destruct (rpc 1) as [|[d1|]];
  try destruct (rpc 2) as [|[d2|]]; simpl;
  eexists;
  first [ solve [exists 1%nat; page_outcome]
        | solve [exists 2%nat; page_outcome]
        | solve [exists 3%nat; page_outcome] ].
Qed.

Lemma store_pages_no_session {A} i (pages : list (A * Z)) rpc st :
  store_pages false i pages rpc st = (0, st, []).
Proof.
  revert i. induction pages as [|[x pn] rest IH]; intros i; simpl; [reflexivity|].
  now rewrite IH.
Qed.

Lemma store_pages_session {A} i (pages : list (A * Z)) rpc st :
  let '(n, st', calls) := store_pages true i pages rpc st in
  exists outs : list (stat_key * list Z),
    length outs = length pages
    /\ Forall (fun o => (fst o = ReviewInserted \/ fst o = ReviewSkipped \/ fst o = Errors)
                        /\ exists m, (1 <= m <= 3)%nat /\ snd o = map Z.of_nat (seq 0 m)) outs
    /\ st' = fold_left (fun s o => incr (fst o) s) outs st
    /\ n = Z.of_nat (length (List.filter
             (fun o => match fst o with ReviewInserted => true | _ => false end) outs))
    /\ calls = concat (zip_with (fun p o => map (fun a => (snd p, a)) (snd o)) pages outs).
Proof.
  revert i st. induction pages as [|[x pn] rest IH]; intros i st; cbn [store_pages].
  - exists []. simpl. repeat split; auto.
  - pose proof (store_review_page_session (rpc i) st) as Hp.
    destruct (store_review_page true (rpc i) st) as [[[r st1] sl] calls1].
    specialize (IH (S i) st1).
    destruct (store_pages true (S i) rest rpc st1) as [[n st2] calls2].
    destruct Hp as (k & m & Hk & -> & Hm & ->).
    destruct IH as (outs & Hlen & Hall & Hst & Hn & Hcalls).
    exists ((k, map Z.of_nat (seq 0 m)) :: outs). simpl.
    split; [now rewrite Hlen|].
    split; [constructor; [split; [simpl; tauto|exists m; split; [exact Hm|reflexivity]]|exact Hall]|].
    split; [exact Hst|].
    split; [|now rewrite Hcalls].
    destruct Hk as [(-> & ->)|[(-> & ->)|(-> & ->)]]; simpl; rewrite Hn; lia.
Qed.

(** [store_reviews_for_product] returns [(len(review_pages), k)].  With
    a session it handles the pages in order, and each page, with one
    call of [store_review_page], makes 1 to 3 RPC calls (attempts
    [0, 1, ...]), all for that page's page number, and adds one to
    exactly one of [review_inserted], [review_skipped] and [errors]: the
    counters after the loop are the counters before it with these
    increments applied page by page, and [k] is the number of pages that
    added to [review_inserted].  Without a session it makes no RPC call,
    changes no counter and returns [(len(review_pages), 0)]. *)
Theorem store_reviews_for_product_pages {A} session (review_pages : list (A * Z)) rpc st :
  let '(crawled, inserted, st', calls) :=
    store_reviews_for_product session review_pages rpc st in
  crawled = Z.of_nat (length review_pages)
  /\ (session = false -> inserted = 0 /\ st' = st /\ calls = [])
  /\ (session = true ->
      exists outs : list (stat_key * list Z),
        length outs = length review_pages
        /\ Forall (fun o => (fst o = ReviewInserted \/ fst o = ReviewSkipped \/ fst o = Errors)
                            /\ exists m, (1 <= m <= 3)%nat /\ snd o = map Z.of_nat (seq 0 m)) outs
        /\ st' = fold_left (fun s o => incr (fst o) s) outs st
        /\ inserted = Z.of_nat (length (List.filter
             (fun o => match fst o with ReviewInserted => true | _ => false end) outs))
        /\ calls = concat (zip_with (fun p o => map (fun a => (snd p, a)) (snd o))
                                    review_pages outs)).
Proof.
  unfold store_reviews_for_product. destruct review_pages as [|p ps] eqn:E.
  - simpl. split; [reflexivity|split; [auto|]]. intros _. exists [].
    simpl. repeat split; auto.
  - rewrite <- E. destruct session.
    + pose proof (store_pages_session 0 review_pages rpc st) as H.
      destruct (store_pages true 0 review_pages rpc st) as [[n st'] calls].
      split; [reflexivity|split; [discriminate|intros _; exact H]].
    + rewrite store_pages_no_session. split; [reflexivity|split; [auto|discriminate]].
Qed.

(** [store_product] returns [None] or a non-zero snapshot id.  When it
    returns an id it has added one to [stats['product_inserted']] and
    changed no other counter; when it returns [None] it has either
    changed no counter, or added one to [stats['product_skipped']] or to
    [stats['errors']] and changed no other counter.  So every counter is
    non-decreasing and at most one of them moves, by one.  It calls the
    RPC for attempts [0, 1, ...], at most 3 times; without a session it
    makes no call and changes nothing. *)
Theorem store_product_result session rpc st :
  let '(r, st', _, calls) := store_product session rpc st in
  ((r = None /\ (st' = st \/ st' = incr ProductSkipped st \/ st' = incr Errors st))
   \/ (exists d, r = Some d /\ d <> 0 /\ st' = incr ProductInserted st))
  /\ (exists n, (n <= 3)%nat /\ calls = map Z.of_nat (seq 0 n))
  /\ (session = false -> r = None /\ st' = st /\ calls = []).
Proof.
  destruct session; simpl.
  2:{ split; [left; split; [reflexivity|left; reflexivity]|].
      split; [exists 0%nat; split; [lia|reflexivity]|auto]. }
  unfold MakeRequest.py_range, max_retries. simpl.
  change (Z.of_nat 0) with 0; change (Z.of_nat 1) with 1; change (Z.of_nat 2) with 2.
  destruct (rpc 0) as [|[d0|]]; [|destruct (Z.eqb_spec d0 0)|];
  try destruct (rpc 1) as [|[d1|]]; try destruct (Z.eqb_spec d1 0);
  try destruct (rpc 2) as [|[d2|]]; try destruct (Z.eqb_spec d2 0);
  simpl;
  (split; [first [ left; split; [reflexivity|];
                   solve [left; reflexivity | right; left; reflexivity
                         | right; right; reflexivity]
                 | right; eexists; split; [reflexivity|split; [assumption|reflexivity]] ]|]);
  (split; [first [exists 1%nat; split; [lia|reflexivity]
                | exists 2%nat; split; [lia|reflexivity]
                | exists 3%nat; split; [lia|reflexivity]]|]);
  discriminate.
Qed.

(** When every attempt's RPC replies with the id [0], [store_product]
    calls the RPC three times without sleeping, returns [None] and
    changes no counter: a falsy reply is neither an insert, nor a skip,
    nor an error. *)
Theorem store_product_zero_replies rpc st :
  (forall a, 0 <= a < 3 -> rpc a = Replies (Some 0)) ->
  store_product true rpc st = (None, st, [], [0; 1; 2]).
Proof.
  intros H. unfold store_product, MakeRequest.py_range, max_retries. simpl.
  change (Z.of_nat 0) with 0; change (Z.of_nat 1) with 1; change (Z.of_nat 2) with 2.
  rewrite !H by lia. reflexivity.
Qed.

(** [get_latest_product_snapshot_id] never returns [0]: it makes the
    attempts [0 .. k] ([k <= 2]), all but the last of which raised,
    sleeping [(a + 1) * 100] ms after each; an id it returns is the reply
    of attempt [k]. *)
Theorem latest_snapshot_id_attempts rpc :
  let '(r, sleeps, calls) := get_latest_product_snapshot_id rpc in
  r <> Some 0
  /\ exists k, (k <= 2)%nat
     /\ calls = map Z.of_nat (seq 0 (S k))
     /\ sleeps = map (fun a => 100 * (Z.of_nat a + 1)) (seq 0 k)
     /\ (forall a, (a < k)%nat -> rpc (Z.of_nat a) = Raises)
     /\ (forall d, r = Some d -> rpc (Z.of_nat k) = Replies (Some d)).
Proof.
  unfold get_latest_product_snapshot_id, MakeRequest.py_range, max_retries. simpl.
  change (Z.of_nat 0) with 0; change (Z.of_nat 1) with 1; change (Z.of_nat 2) with 2.
  destruct (rpc 0) as [|[d0|]] eqn:E0; [|destruct (Z.eqb_spec d0 0)|];
  try destruct (rpc 1) as [|[d1|]] eqn:E1; try destruct (Z.eqb_spec d1 0);
  try destruct (rpc 2) as [|[d2|]] eqn:E2; try destruct (Z.eqb_spec d2 0);
  simpl;
  (split; [congruence|]);
  let fin := (split; [lia|]); (split; [reflexivity|]); (split; [reflexivity|]);
    (split; [intros a Ha; destruct a as [|[|a]]; first [exact E0 | exact E1 | lia]|]);
    intros d Hd; inversion Hd; subst; assumption in
  first [exists 0%nat; fin | exists 1%nat; fin | exists 2%nat; fin].
Qed.

(** Step 1 of [crawl_all]: [total_items] grows by one exactly when the
    home data is fetched (truthy), there is a session and its RPC does
    not raise, whether the row is new or a duplicate; [skipped_items]
    grows by one exactly when the data is fetched but [store_home]
    returns [False] (no session, or the RPC raised); the crawler's
    [errors] grows by one exactly when [get_home] raises. *)
Theorem crawl_home_step_counts home session rpc st t sk e :
  let '(t', sk', _, e') := crawl_home_step home session rpc st t sk e in
  (t' = t + 1 /\ sk' = sk /\ e' = e
   /\ home = Replies true /\ session = true /\ rpc <> Raises)
  \/ (t' = t /\ sk' = sk + 1 /\ e' = e
      /\ home = Replies true /\ (session = false \/ rpc = Raises))
  \/ (t' = t /\ sk' = sk /\ e' = e + 1 /\ home = Raises)
  \/ (t' = t /\ sk' = sk /\ e' = e /\ home = Replies false).
Proof.
  destruct home as [|[|]]; simpl; [auto 10| |auto 10].
  destruct session; simpl; [|right; left; auto 10].
  destruct rpc as [|[d|]]; simpl; [right; left; auto 10|left; repeat split; auto; discriminate..].
Qed.

End StorageFacts.

(** ** [int(str(z)) == z] *)
Module PyTextFacts.
Import PyText.

(** The value of a run of decimal digits. *)
Definition dec_value (l : list ascii) : Z :=
  fold_left (fun acc c => 10 * acc + digit_value c) l 0.

Lemma digits_from_all_digits l acc :
  Forall (fun c => is_digit c = true) l ->
  digits_from l acc = Some (fold_left (fun a c => 10 * a + digit_value c) l acc).
Proof.
  revert acc. induction l as [|c r IH]; intros acc H; [reflexivity|].
  inversion H as [|? ? Hc Hr]; subst. simpl. rewrite Hc. now apply IH.
Qed.

Lemma unsigned_all_digits l :
  l <> [] -> Forall (fun c => is_digit c = true) l -> unsigned l = Some (dec_value l).
Proof.
  destruct l as [|c r]; [congruence|]. intros _ H.
  inversion H as [|? ? Hc Hr]; subst. simpl. rewrite Hc.
  rewrite digits_from_all_digits by assumption. unfold dec_value. simpl. f_equal.
Qed.

Lemma dec_value_snoc l c : dec_value (l ++ [c]) = 10 * dec_value l + digit_value c.
Proof. unfold dec_value. now rewrite fold_left_app. Qed.

Lemma digit_char_ok d : 0 <= d < 10 ->
  is_digit (digit_char d) = true /\ digit_value (digit_char d) = d.
Proof.
  intros Hd. unfold is_digit, digit_value, digit_char.
  rewrite nat_ascii_embedding by lia.
  split; [apply andb_true_iff; split; apply Nat.leb_le|]; lia.
Qed.

Lemma nat_digits_S f n : nat_digits (S f) n =
  if n <? 10 then [digit_char n] else nat_digits f (n / 10) ++ [digit_char (n mod 10)].
Proof. reflexivity. Qed.

Lemma nat_digits_ok f n : 0 <= n < 10 ^ Z.of_nat (S f) ->
  let l := nat_digits (S f) n in
  l <> [] /\ Forall (fun c => is_digit c = true) l /\ dec_value l = n.
Proof.
  revert n. induction f as [|f IH]; intros n Hn; cbn zeta.
  - change (10 ^ Z.of_nat 1) with 10 in Hn. simpl.
    destruct (Z.ltb_spec n 10); [|lia].
    destruct (digit_char_ok n ltac:(lia)) as [H1 H2].
    repeat split; [discriminate|constructor; auto|]. unfold dec_value. simpl. lia.
  - rewrite nat_digits_S. destruct (Z.ltb_spec n 10).
    + destruct (digit_char_ok n ltac:(lia)) as [H1 H2].
      repeat split; [discriminate|constructor; auto|]. unfold dec_value. simpl. lia.
    + assert (Hq : 0 <= n / 10 < 10 ^ Z.of_nat (S f)).
      { split; [apply Z.div_pos; lia|].
        apply Z.div_lt_upper_bound; [lia|].
        rewrite Nat2Z.inj_succ, Z.pow_succ_r in Hn by lia. lia. }
      destruct (IH (n / 10) Hq) as (Hne & Hd & Hv).
      destruct (digit_char_ok (n mod 10) ltac:(pose proof (Z.mod_pos_bound n 10); lia))
        as [H1 H2].
      repeat split.
      * intros Happ. apply app_eq_nil in Happ as [_ Habs]. discriminate.
      * apply Forall_app; split; [exact Hd|constructor; auto].
      * rewrite dec_value_snoc, Hv, H2. pose proof (Z.div_mod n 10). lia.
Qed.

Lemma digits_of_ok n : 0 <= n ->
  digits_of n <> [] /\ Forall (fun c => is_digit c = true) (digits_of n)
  /\ dec_value (digits_of n) = n.
Proof.
  intros Hn. unfold digits_of. apply nat_digits_ok. split; [lia|].
  rewrite Nat2Z.inj_succ, Z2Nat.id by apply Z.log2_nonneg.
  destruct (Z.eq_dec n 0) as [->|Hn0]; [reflexivity|].
  destruct (Z.log2_spec n ltac:(lia)) as [_ Hup].
  eapply Z.lt_le_trans; [exact Hup|].
  apply Z.pow_le_mono_l. lia.
Qed.

Lemma lstrip_stop p c l : p c = false -> lstrip p (c :: l) = c :: l.
Proof. intros H. simpl. now rewrite H. Qed.

Lemma strip_by_digits_end p c l d :
  p c = false -> p d = false -> strip_by p (c :: l ++ [d]) = c :: l ++ [d].
Proof.
  intros Hc Hd. unfold strip_by. rewrite lstrip_stop by exact Hc.
  replace (rev (c :: l ++ [d])) with (d :: rev (c :: l))
    by (simpl; now rewrite rev_app_distr).
  simpl lstrip. rewrite Hd. simpl rev. rewrite rev_app_distr, rev_involutive.
  reflexivity.
Qed.

Lemma digit_not_space c : is_digit c = true -> int_space c = false.
Proof.
  unfold is_digit, int_space. intros H. apply andb_true_iff in H as [H1 H2].
  apply Nat.leb_le in H1, H2.
  apply orb_false_iff; split; [apply andb_false_iff|apply Nat.eqb_neq; lia].
  right. apply Nat.leb_gt. lia.
Qed.

Lemma strip_by_ends p l :
  l <> [] -> (forall c r, l = c :: r -> p c = false) ->
  (forall ini d, l = ini ++ [d] -> p d = false) -> strip_by p l = l.
Proof.
  intros Hne Hfirst Hlast. destruct (exists_last Hne) as (ini & d & E).
  pose proof (Hlast ini d E) as Hd. subst l.
  destruct ini as [|c l'].
  - unfold strip_by. simpl. rewrite Hd. simpl. rewrite Hd. reflexivity.
  - apply strip_by_digits_end; [apply (Hfirst c (l' ++ [d]))|]; auto.
Qed.

Lemma digits_ends ds :
  Forall (fun c => is_digit c = true) ds ->
  (forall c r, ds = c :: r -> int_space c = false)
  /\ (forall ini d, ds = ini ++ [d] -> int_space d = false).
Proof.
  intros H. split.
  - intros c r ->. inversion H. now apply digit_not_space.
  - intros ini d ->. apply Forall_app in H as [_ H]. inversion H. now apply digit_not_space.
Qed.

(** [int(str(z)) == z] for every integer [z]. *)
Lemma py_str_round_trip (z : Z) : py_int (py_str z) = Some z.
Proof.
  unfold py_int, py_str. rewrite list_ascii_of_string_of_list_ascii.
  destruct (Z.ltb_spec z 0) as [Hneg|Hpos].
  - destruct (digits_of_ok (- z) ltac:(lia)) as (Hne & Hd & Hv).
    destruct (digits_ends _ Hd) as [_ Hl].
    rewrite strip_by_ends.
    + simpl. rewrite unsigned_all_digits, Hv by assumption. simpl. f_equal. lia.
    + discriminate.
    + intros c r [= <- _]. reflexivity.
    + intros ini d E. destruct (exists_last Hne) as (ini' & d' & E').
      rewrite E', app_comm_cons in E. apply app_inj_tail in E as [_ <-].
      apply (Hl ini'). exact E'.
  - destruct (digits_of_ok z ltac:(lia)) as (Hne & Hd & Hv).
    destruct (digits_ends _ Hd) as [Hf Hl].
    rewrite strip_by_ends by assumption.
    destruct (digits_of z) as [|c r] eqn:E; [congruence|].
    pose proof (Forall_inv Hd) as Hc. simpl in Hc.
    assert (Hplus : Ascii.eqb c "+" = false).
    { apply Ascii.eqb_neq. intros ->. discriminate. }
    assert (Hminus : Ascii.eqb c "-" = false).
    { apply Ascii.eqb_neq. intros ->. discriminate. }
    rewrite Hplus, Hminus, unsigned_all_digits, Hv by assumption.
    reflexivity.
Qed.

End PyTextFacts.

(** ** [_get_product_ids_from_db] and [sorted(target_product_ids)] *)
Module ProductIdsFacts.
Import BatchInsert PyText ProductIds PyTextFacts.

Lemma mapM_py_str (zs : list Z) :
  mapM (fun o : option string => o ≫= py_int) (map (fun z => Some (py_str z)) zs) = Some zs.
Proof.
  induction zs as [|z zs IH]; [reflexivity|].
  simpl. rewrite py_str_round_trip. simpl. rewrite IH. reflexivity.
Qed.


Lemma products_list_sorted ids :
  StronglySorted Z.lt (products_list ids)
  /\ (forall x, In x (products_list ids) <-> x ∈ ids).
Proof.
  unfold products_list.
  pose proof (merge_sort_Permutation Z.le (elements ids)) as Hp.
  assert (Hnd : NoDup (merge_sort Z.le (elements ids))).
  { rewrite Hp. apply NoDup_elements. }
  split.
  - pose proof (StronglySorted_merge_sort Z.le (elements ids)) as Hs.
    revert Hs Hnd. generalize (merge_sort Z.le (elements ids)) as l.
    induction l as [|x l IH]; intros Hs Hnd; constructor.
    + apply StronglySorted_inv in Hs as [Hs Hx]. apply NoDup_cons in Hnd as [Hn Hnd].
      auto.
    + apply StronglySorted_inv in Hs as [_ Hx]. apply NoDup_cons in Hnd as [Hn _].
      apply Forall_forall. intros y Hy. rewrite Forall_forall in Hx.
      pose proof (Hx y Hy) as Hle. assert (x <> y) by (intros ->; contradiction). lia.
  - intros x. rewrite <- list_elem_of_In, Hp. apply elem_of_elements.
Qed.

(** When the rows' [product_id] values are the texts [str(z)] of integers
    [zs] ([_batch_insert_products] writes ids as [str]), the set
    [_get_product_ids_from_db] returns is exactly the set of [zs], and
    [sorted()] of it lists each of them once, in strictly increasing
    order. *)
Theorem product_ids_from_str_rows (zs : list Z) :
  let ids := get_product_ids_from_db (Replies (map (fun z => Some (py_str z)) zs)) in
  ids = list_to_set zs
  /\ StronglySorted Z.lt (products_list ids)
  /\ (forall x, In x (products_list ids) <-> In x zs).
Proof.
  assert (Hids : get_product_ids_from_db (Replies (map (fun z => Some (py_str z)) zs))
                 = list_to_set zs).
  { unfold get_product_ids_from_db. destruct zs as [|z zs']; [reflexivity|].
    pose proof (mapM_py_str (z :: zs')) as H. cbn [map] in H |- *. rewrite H.
    reflexivity. }
  cbv zeta. rewrite Hids.
  destruct (products_list_sorted (list_to_set zs)) as [Hs Hin].
  split; [reflexivity|]. split; [exact Hs|].
  intros x. rewrite Hin, elem_of_list_to_set. apply list_elem_of_In.
Qed.


End ProductIdsFacts.

(** ** [_crawl_category] *)
Module CategoryCrawlFacts.
Import BatchInsert PyText CategoryCrawl PyTextFacts BatchInsertClaims.

(** The records a call carries. *)
Definition call_products (c : call) : list product :=
  match c with
  | CallBatchRpc b | CallTableInsert b => b
  | CallSingleRpc p => [p]
  end.

Lemma batches_sub (l : list product) b p :
  In b (batches l) -> In p b -> In p l.
Proof.
  unfold batches. intros Hb Hp. apply in_map_iff in Hb as (i & <- & _).
  rewrite <- (take_drop i l). apply in_or_app. right.
  rewrite <- (take_drop batch_size (drop i l)). apply in_or_app. now left.
Qed.

Lemma batch_insert_products_sub S (l : list product) c p :
  In c (snd (batch_insert_products S l)) -> In p (call_products c) -> In p l.
Proof.
  unfold batch_insert_products.
  destruct l as [|x xs] eqn:E; [simpl; tauto|]. rewrite <- E.
  rewrite insert_batches_spec. simpl. intros Hc Hp.
  apply in_concat in Hc as (cs & Hcs & Hc). apply in_map_iff in Hcs as (b & <- & Hb).
  apply (batches_sub l b p Hb).
  unfold tier_calls in Hc. destruct Hc as [<-|Hc]; [exact Hp|].
  destruct (batch_insert_listing_api S b); [|contradiction].
  destruct Hc as [<-|Hc]; [exact Hp|].
  destruct (listing_api_insert S b); [|contradiction].
  apply in_map_iff in Hc as (q & <- & Hq). destruct Hp as [<-|[]]. exact Hq.
Qed.

(** [_crawl_category] on a listing: [category_products] counts every
    listing item and [pages] the pages, with no error; every record it
    sends to the database, in any call, comes from an item whose [id] is
    truthy, with [str(id)] as [product_id] (read back by [int()] as the
    id itself when the id is an integer) and [str] of a truthy brand
    [id], or nothing, as [brand_id]; items without a truthy [id] are
    counted but never sent. *)
Theorem crawl_category_records (pages : list (list item)) S :
  let '(res, calls) := crawl_category (Replies pages) S in
  cr_products res = Z.of_nat (length (concat pages))
  /\ cr_pages res = Z.of_nat (length pages)
  /\ cr_error res = false
  /\ forall c p, In c calls -> In p (call_products c) ->
     exists it j, In it (concat pages) /\ item_id it = Some j /\ jid_truthy j = true
       /\ product_id p = jid_str j
       /\ (forall z, j = JInt z -> py_int (product_id p) = Some z)
       /\ (forall b, brand_id p = Some b ->
            exists bj, item_brand it = BrandDict (Some bj) /\ jid_truthy bj = true
                       /\ b = jid_str bj).
Proof.
  unfold crawl_category.
  pose proof (batch_insert_products_sub S (omap item_product (concat pages))) as Hsub.
  destruct (batch_insert_products S (omap item_product (concat pages))) as [ins calls].
  simpl in Hsub.
  assert (Hcount : forall ps : list (list item),
            fold_right (fun l n => Z.of_nat (length l) + n) 0 ps
            = Z.of_nat (length (concat ps))).
  { induction ps as [|l ps IH]; [reflexivity|].
    simpl. rewrite length_app, IH. lia. }
  split; [apply Hcount|]. split; [reflexivity|]. split; [reflexivity|].
  intros c p Hc Hp. pose proof (Hsub c p Hc Hp) as Hin.
  apply list_elem_of_In, list_elem_of_omap in Hin as (it & Hit & Hprod).
  apply list_elem_of_In in Hit.
  unfold item_product in Hprod.
  destruct (item_id it) as [j|] eqn:Hj; [|discriminate].
  destruct (jid_truthy j) eqn:Htj; [|discriminate].
  injection Hprod as <-. exists it, j. simpl.
  repeat split; auto.
  - intros z ->. apply py_str_round_trip.
  - intros b Hb. destruct (item_brand it) as [[bj|]|]; try discriminate.
    destruct (jid_truthy bj) eqn:Hbj; [|discriminate].
    injection Hb as <-. eauto.
Qed.

End CategoryCrawlFacts.

(** ** [get_all_leaves] of [find_brands] *)
Module BrandLeavesFacts.
Import Categories BrandLeaves CategoriesClaims.

Lemma all_leaves_cat_leaves c :
  children_lists c = true -> no_skipped_name c = true -> all_leaves_cat c = Some (leaves c).
Proof.
  induction c as [cat_id name child IHc] using category_ind'.
  intros Hl Hn. cbn [children_lists no_skipped_name] in Hl, Hn.
  apply andb_prop in Hn as [Hname Hn]. apply negb_true_iff in Hname.
  cbn [all_leaves_cat leaves]. rewrite Hname.
  destruct child as [| |[|c cs]]; try reflexivity; [discriminate|].
  assert (Hm : mapM all_leaves_cat (c :: cs) = Some (map leaves (c :: cs))).
  { revert IHc Hl Hn. generalize (c :: cs) as l. intros l IHl Hl Hn.
    induction l as [|x xs IH]; [reflexivity|].
    inversion IHl as [|? ? Hx Hxs]; subst.
    simpl in Hl, Hn. apply andb_prop in Hl as [Hlx Hlxs]. apply andb_prop in Hn as [Hnx Hnxs].
    simpl. rewrite Hx by assumption. simpl. rewrite IH by assumption. reflexivity. }
  rewrite Hm. simpl. f_equal. now rewrite flat_map_concat_map.
Qed.

(** On a category tree in which every [child] value is a list (or
    absent) and no node is named ["Mỹ Phẩm High-End"], [get_all_leaves]
    returns the leaves (nodes without a non-empty [child] list) in
    depth-first order, children in input order; when every node also
    has a non-zero [id], they are the categories, as [{id, name}],
    that [parse_category_hierarchy] returns. *)
Theorem get_all_leaves_tree (cat_list : list category) :
  forallb children_lists cat_list = true ->
  forallb no_skipped_name cat_list = true ->
  get_all_leaves cat_list = Some (leaves_list cat_list)
  /\ (forallb ids_truthy cat_list = true ->
      fmap (map to_leaf) (get_all_leaves cat_list)
      = Some (parse_category_hierarchy cat_list)).
Proof.
  intros Hl Hn.
  assert (Hg : get_all_leaves cat_list = Some (leaves_list cat_list)).
  { unfold get_all_leaves, leaves_list.
    assert (Hm : mapM all_leaves_cat cat_list = Some (map leaves cat_list)).
    { induction cat_list as [|x xs IH]; [reflexivity|].
      simpl in Hl, Hn. apply andb_prop in Hl as [Hlx Hlxs].
      apply andb_prop in Hn as [Hnx Hnxs].
      simpl. rewrite all_leaves_cat_leaves by assumption. simpl.
      rewrite IH by assumption. reflexivity. }
    rewrite Hm. simpl. f_equal. now rewrite flat_map_concat_map. }
  split; [exact Hg|]. intros Ht. rewrite Hg. simpl. f_equal.
  unfold parse_category_hierarchy. now rewrite traverse_truthy.
Qed.

End BrandLeavesFacts.

(** ** [Config.load_brand_ids] *)
Module BrandsFileFacts.
Import PyText BrandsFile.

Lemma lstrip_sub p l c : In c (lstrip p l) -> In c l.
Proof.
  induction l as [|x r IH]; simpl; [tauto|].
  destruct (p x); [intros H; right; auto|tauto].
Qed.

Lemma lstrip_keeps p l c : In c l -> p c = false -> In c (lstrip p l).
Proof.
  induction l as [|x r IH]; simpl; [tauto|].
  intros [<-|H] Hc; destruct (p x) eqn:Hx; try congruence; simpl; auto.
Qed.

Lemma strip_by_sub p l c : In c (strip_by p l) -> In c l.
Proof.
  unfold strip_by. intros H. rewrite <- in_rev in H. apply lstrip_sub in H.
  rewrite <- in_rev in H. now apply lstrip_sub in H.
Qed.

Lemma strip_by_keeps p l c : In c l -> p c = false -> In c (strip_by p l).
Proof.
  intros H Hc. unfold strip_by. rewrite <- in_rev. apply lstrip_keeps; [|exact Hc].
  rewrite <- in_rev. now apply lstrip_keeps.
Qed.

Lemma lstrip_idem p l : lstrip p (lstrip p l) = lstrip p l.
Proof.
  induction l as [|x r IH]; simpl; [reflexivity|].
  destruct (p x) eqn:Hx; [exact IH|]. simpl. now rewrite Hx.
Qed.

Lemma lstrip_app_stop p t d c :
  p d = false -> lstrip p (t ++ d :: c) = lstrip p t ++ d :: c.
Proof.
  intros Hd. induction t as [|x r IH]; simpl; [now rewrite Hd|].
  destruct (p x); [exact IH|reflexivity].
Qed.

Lemma strip_by_app_stop p t d c :
  p d = false ->
  strip_by p (t ++ d :: c) = lstrip p t ++ d :: rev (lstrip p (rev c)).
Proof.
  intros Hd. unfold strip_by. rewrite lstrip_app_stop by exact Hd.
  rewrite rev_app_distr. simpl. rewrite <- app_assoc. simpl.
  rewrite lstrip_app_stop by exact Hd.
  rewrite rev_app_distr. simpl. rewrite rev_involutive, <- app_assoc. reflexivity.
Qed.

Lemma split_on_first d x y :
  ~ In d x -> split_on d (x ++ d :: y) = x :: split_on d y.
Proof.
  intros Hx. induction x as [|a x IH]; simpl.
  - now rewrite Ascii.eqb_refl.
  - simpl in Hx. rewrite IH by tauto.
    destruct (Ascii.eqb_spec a d) as [->|_]; [tauto|reflexivity].
Qed.

Lemma contains_In c l : contains c l = true <-> In c l.
Proof.
  unfold contains. rewrite existsb_exists. split.
  - intros (x & Hx & E). apply Ascii.eqb_eq in E. now subst.
  - intros H. exists c. split; [exact H|apply Ascii.eqb_refl].
Qed.

Lemma digits_from_chars l acc v :
  digits_from l acc = Some v -> Forall (fun c => is_digit c || Ascii.eqb c "_" = true) l.
Proof.
  remember (length l) as n eqn:En. assert (Hn : (length l <= n)%nat) by lia. clear En.
  revert l acc Hn. induction n as [|n IH]; intros l acc Hn H.
  { destruct l; [constructor|simpl in Hn; lia]. }
  destruct l as [|c r]; [constructor|]. simpl in Hn.
  simpl in H. destruct (is_digit c) eqn:Hc.
  - constructor; [now rewrite Hc|]. eapply IH; [lia|exact H].
  - destruct (Ascii.eqb c "_") eqn:Hu; [|discriminate].
    destruct r as [|d r']; [discriminate|].
    destruct (is_digit d) eqn:Hd; [|discriminate].
    constructor; [now rewrite Hu, orb_true_r|].
    constructor; [now rewrite Hd|]. eapply IH; [simpl in Hn; lia|exact H].
Qed.

Lemma unsigned_chars l v :
  unsigned l = Some v -> Forall (fun c => is_digit c || Ascii.eqb c "_" = true) l.
Proof.
  destruct l as [|c r]; simpl; [discriminate|].
  destruct (is_digit c) eqn:Hc; [|discriminate].
  intros H. constructor; [now rewrite Hc|]. eapply digits_from_chars. exact H.
Qed.

(** [int()] rejects any text with a comma. *)
Lemma py_int_comma t : In ","%char t -> py_int (string_of_list_ascii t) = None.
Proof.
  intros Hin. unfold py_int. rewrite list_ascii_of_string_of_list_ascii.
  assert (Hs : In ","%char (strip_by int_space t)) by (apply strip_by_keeps; auto).
  destruct (strip_by int_space t) as [|c r]; [contradiction|].
  assert (Hbad : forall l v, In ","%char l -> unsigned l <> Some v).
  { intros l v Hl Hu. apply unsigned_chars in Hu. rewrite Forall_forall in Hu.
    specialize (Hu _ (proj2 (list_elem_of_In _ _) Hl)). discriminate. }
  destruct (Ascii.eqb_spec c "+") as [->|Hp].
  - destruct Hs as [Hs|Hs]; [discriminate|].
    destruct (unsigned r) eqn:E; [|reflexivity]. exfalso. eapply Hbad; eauto.
  - destruct (Ascii.eqb_spec c "-") as [->|Hm].
    + destruct Hs as [Hs|Hs]; [discriminate|].
      destruct (unsigned r) eqn:E; [|reflexivity]. exfalso. eapply Hbad; eauto.
    + destruct (unsigned (c :: r)) eqn:E; [|reflexivity]. exfalso. eapply Hbad; eauto.
Qed.

(** A line holding a [;] is split on [;] only: every id it yields comes
    from one of its [;]-separated pieces, and never from a piece whose
    text (inline comment cut) holds a [,], which [int()] rejects; so in
    ["12;34,56"] the part ["34,56"] yields nothing. *)
Theorem brand_line_semicolon_split line x :
  contains ";" (strip (list_ascii_of_string line)) = true ->
  In x (line_ids line) ->
  exists piece, In piece (split_on ";" (strip (list_ascii_of_string line)))
    /\ token_id piece = Some x /\ ~ In ","%char (clean_token piece).
Proof.
  intros Hsemi Hx. unfold line_ids in Hx.
  destruct (strip (list_ascii_of_string line)) as [|c r] eqn:E; [contradiction|].
  destruct (Ascii.eqb c "#"); [contradiction|].
  unfold pieces in Hx. rewrite Hsemi in Hx.
  apply list_elem_of_In, list_elem_of_omap in Hx as (piece & Hp & Ht).
  exists piece. split; [now apply list_elem_of_In|]. split; [exact Ht|].
  intros Hc. unfold token_id in Ht. destruct (clean_token piece) as [|a l] eqn:Ec.
  - contradiction.
  - rewrite py_int_comma in Ht by exact Hc. discriminate.
Qed.

(** An inline comment after an id is ignored: a token [t] without [#]
    followed by [#] and any text yields what [t] alone yields. *)
Theorem token_inline_comment t c :
  ~ In "#"%char t -> token_id (t ++ "#"%char :: c) = token_id t.
Proof.
  intros Ht. unfold token_id, clean_token, strip.
  assert (Hhash : str_space "#" = false) by reflexivity.
  rewrite strip_by_app_stop by exact Hhash.
  assert (Hl : ~ In "#"%char (lstrip str_space t)) by (intros H; apply Ht; eapply lstrip_sub; eauto).
  assert (Hcont : contains "#" (lstrip str_space t ++ "#"%char :: rev (lstrip str_space (rev c)))
                  = true) by (apply contains_In, in_or_app; right; now left).
  rewrite Hcont, split_on_first by exact Hl. simpl hd.
  assert (Hno : contains "#" (strip_by str_space t) = false).
  { destruct (contains "#" (strip_by str_space t)) eqn:H; [|reflexivity].
    apply contains_In, strip_by_sub in H. contradiction. }
  rewrite Hno.
  assert (Hid : strip_by str_space (lstrip str_space t) = strip_by str_space t)
    by (unfold strip_by; now rewrite lstrip_idem).
  now rewrite Hid.
Qed.

(** When every line of [brands.txt] is blank or a comment,
    [load_brand_ids] returns no id, and [crawl_all], whose brand ids are
    those of the file, returns at once: no session, no request. *)
Theorem brands_file_only_comments (lines : list string) :
  (forall line, In line lines ->
     match strip (list_ascii_of_string line) with [] => True | c :: _ => c = "#"%char end) ->
  load_brand_ids (Some lines) = []
  /\ forall E : Orchestrator.env,
       Orchestrator.brand_ids_loaded E = bool_decide (load_brand_ids (Some lines) <> []) ->
       Orchestrator.crawl_all E = ([], Orchestrator.RunReturned).
Proof.
  intros H.
  assert (Hnil : load_brand_ids (Some lines) = []).
  { unfold load_brand_ids.
    assert (Hc : concat (map line_ids lines) = []).
    { induction lines as [|l ls IH]; [reflexivity|].
      simpl. rewrite IH by (intros; apply H; now right).
      specialize (H l (or_introl eq_refl)). unfold line_ids.
      destruct (strip (list_ascii_of_string l)) as [|c r]; [reflexivity|].
      subst c. reflexivity. }
    now rewrite Hc. }
  split; [exact Hnil|].
  intros E HE. unfold Orchestrator.crawl_all. rewrite HE, Hnil. reflexivity.
Qed.

End BrandsFileFacts.

(** ** Concrete runs *)
Module ReviewWalkRuns.
Import ReviewWalk ReviewWalkFacts ReviewWalkClaims.

Definition review_page (p total : Z) : response :=
  mk_response (RDDict [p; p; p; p; p] total) 200.

(** [total = 12]; the API repeats page 3 as page 4, then fails. *)
Definition fetch_T12 (p : Z) : option response :=
  if p =? 4 then Some (review_page 3 12)
  else if (1 <=? p) && (p <=? 3) then Some (review_page p 12)
  else None.

Example fetch_T12_pages :
  get_product_reviews fetch_T12 default_max_pages
  = [(review_page 1 12, 1); (review_page 2 12, 2); (review_page 3 12, 3)].
Proof. reflexivity. Qed.

Lemma reviews_never_beyond_declared_total_witness :
  fetch_T12 1 = Some (review_page 1 12) /\ 0 < total_of (review_page 1 12)
  /\ (forall e, In e (get_product_reviews fetch_T12 default_max_pages) -> snd e <= 3).
Proof.
  split; [reflexivity|]. split; [reflexivity|]. intros e He.
  exact (proj2 (reviews_never_beyond_declared_total fetch_T12 default_max_pages
                  (review_page 1 12) eq_refl eq_refl) e He).
Defined.

(** Pages 2 and 3 fail, page 4 succeeds, page 5 is empty. *)
Definition fetch_fail23 (p : Z) : option response :=
  if (p =? 2) || (p =? 3) then None
  else if p <=? 4 then Some (review_page p 40)
  else Some (mk_response (RDDict [] 40) 200).

Example fetch_fail23_pages :
  get_product_reviews fetch_fail23 default_max_pages
  = [(review_page 1 40, 1); (review_page 4 40, 4)].
Proof. reflexivity. Qed.

(** Three failures in a row after page 1: pages 1 only. *)
Definition fetch_fail234 (p : Z) : option response :=
  if p =? 1 then Some (review_page 1 40)
  else if p <=? 4 then None
  else Some (review_page p 40).

Example fetch_fail234_pages :
  get_product_reviews fetch_fail234 default_max_pages = [(review_page 1 40, 1)].
Proof. reflexivity. Qed.

Definition s2 : walk_state := state_of (loop_body fetch_fail23 init_state).
Definition s3 : walk_state := state_of (loop_body fetch_fail23 s2).
Definition s4 : walk_state := state_of (loop_body fetch_fail23 s3).

Lemma s4_reachable : reachable fetch_fail23 default_max_pages s4.
Proof.
  apply reach_step with (s := s3); [|vm_compute; intros Hc; discriminate Hc|reflexivity].
  apply reach_step with (s := s2); [|vm_compute; intros Hc; discriminate Hc|reflexivity].
  apply reach_step with (s := init_state); [constructor|vm_compute; intros Hc; discriminate Hc|reflexivity].
Qed.

Lemma review_walk_failure_counter_witness :
  page s4 = 4 /\ consecutive_failures s4 = 2
  /\ consecutive_failures (state_of (loop_body fetch_fail23 s4)) = 0.
Proof.
  destruct (review_walk_failure_counter fetch_fail23 default_max_pages s4
              s4_reachable ltac:(vm_compute; intros Hc; discriminate Hc))
    as (Hc & _ & _ & Hok & _).
  split; [reflexivity|]. split.
  - rewrite Hc. reflexivity.
  - apply (Hok (review_page 4 40)). reflexivity.
Defined.

(** Page 1 declares [total = 0]; later pages declare 5, which is ignored. *)
Definition fetch_no_total (p : Z) : option response :=
  if p =? 1 then Some (review_page 1 0)
  else if p <=? 6 then Some (review_page p 5)
  else None.

Example fetch_no_total_pages :
  map snd (get_product_reviews fetch_no_total default_max_pages) = [1; 2; 3; 4; 5; 6].
Proof. reflexivity. Qed.

Definition t2 : walk_state := state_of (loop_body fetch_no_total init_state).

Lemma no_ceiling_without_page1_total_witness :
  calculated_max_pages t2 = None.
Proof.
  assert (H1 : fetch_no_total 1 = None
               \/ exists r1, fetch_no_total 1 = Some r1 /\ total_of r1 = 0)
    by (right; eexists; split; reflexivity).
  apply (proj1 (no_ceiling_without_page1_total fetch_no_total default_max_pages H1
                  t2 (reach_step fetch_no_total default_max_pages init_state t2
                        (reach_init _ _)
                        ltac:(vm_compute; intros Hc; discriminate Hc)
                        ltac:(reflexivity)))).
Defined.

End ReviewWalkRuns.

Module ListingWalkRuns.
Import ListingWalk ListingWalkClaims.

Definition fetch_listing (p : Z) : option listing_response :=
  if (1 <=? p) && (p <=? 2) then Some (mk_listing [p * 10] 200)
  else if p =? 3 then Some (mk_listing [] 200)
  else Some (mk_listing [99] 200).

Lemma listing_walk_stops_at_first_empty_witness :
  exists rs, get_product_ids_from_category 3 fetch_listing = Some rs
    /\ map Some rs = map (fun k => fetch_listing (Z.of_nat k)) (seq 1 2).
Proof.
  assert (H1 : forall k, (1 <= k <= 2)%nat ->
               exists r, fetch_listing (Z.of_nat k) = Some r /\ listing r <> []).
  { intros k Hk. destruct k as [|[|[|k]]]; try lia;
      eexists; (split; [reflexivity|discriminate]). }
  assert (H2 : exists r, fetch_listing (Z.of_nat 3) = Some r /\ listing r = [])
    by (eexists; split; reflexivity).
  exact (listing_walk_stops_at_first_empty fetch_listing 2 H1 H2 3 ltac:(lia)).
Defined.

End ListingWalkRuns.

Module OrchestratorRuns.
Import Orchestrator OrchestratorClaims.

Definition env_empty_universe : env :=
  mk_env true true [] (fun _ => Some 1) (fun _ => Some 7) (fun _ => None) (fun _ => [1]).

Lemma empty_universe_fails_before_crawling_witness :
  exists pre, crawl_all env_empty_universe = (pre ++ [EvFinishSession Failed], RunReturned)
    /\ forall pid, ~ In (EvFetchDetail pid) pre.
Proof.
  destruct (empty_universe_fails_before_crawling env_empty_universe
              ltac:(simpl; tauto) eq_refl) as (pre & Hrun & Hno & _).
  exists pre. split; [exact Hrun|]. intros pid. apply Hno.
Defined.

(** Product 1 changed (snapshot 11), product 2 unchanged with an existing
    snapshot 5, product 3 unchanged with none. *)
Definition env_three : env :=
  mk_env true true [1; 2; 3] (fun _ => Some 1)
    (fun pid => if pid =? 1 then Some 11 else None)
    (fun pid => if pid =? 2 then Some 5 else None)
    (fun _ => [1; 2]).

Example env_three_run :
  crawl_all env_three
  = ([EvStartSession; EvFetchHome; EvQueryProductIds;
      EvFetchDetail 1; EvStoreProduct 1;
      EvFetchDetail 2; EvStoreProduct 2; EvLatestSnapshot 2;
      EvFetchDetail 3; EvStoreProduct 3; EvLatestSnapshot 3; EvWarnNoSnapshot 3;
      EvFetchReviews 2; EvStoreReviewPage 2 5 1; EvStoreReviewPage 2 5 2;
      EvFetchReviews 1; EvStoreReviewPage 1 11 1; EvStoreReviewPage 1 11 2;
      EvFinishSession Completed], RunReturned).
Proof. vm_compute. reflexivity. Qed.

End OrchestratorRuns.

(** ** Runs of the properties above on concrete inputs *)
Module ReviewSequentialRuns.
Import ReviewWalk ReviewSequential ReviewWalkMore.

(** Three pages of one review each ([total = 12], so a ceiling of 3),
    then an empty page 4. *)
Definition fetch_three (p : Z) : option response :=
  if (1 <=? p) && (p <=? 3) then Some (mk_response (RDDict [p] 12) 200)
  else if p =? 4 then Some (mk_response (RDDict [] 12) 200)
  else None.

Lemma fetch_three_ok :
  forall k, (1 <= k <= 3)%nat ->
  exists r, fetch_three (Z.of_nat k) = Some r /\ reviews_of r <> [].
Proof.
  intros k Hk. destruct k as [|[|[|[|k]]]]; try lia;
  (eexists; split; [reflexivity|discriminate]).
Qed.

Lemma sequential_stops_at_first_gap_witness :
  exists rs, get_product_reviews_sequential 10 fetch_three = Some rs
    /\ map Some rs = map (fun k => fetch_three (Z.of_nat k)) (seq 1 3).
Proof.
  apply (sequential_stops_at_first_gap fetch_three 3 fetch_three_ok).
  - right. eexists; split; reflexivity.
  - lia.
Defined.

Lemma review_walks_agree_witness :
  map snd (get_product_reviews fetch_three 100) = map Z.of_nat (seq 1 3)
  /\ get_product_reviews_sequential 4 fetch_three
     = Some (map fst (get_product_reviews fetch_three 100)).
Proof.
  apply (review_walks_agree fetch_three 100 3 fetch_three_ok).
  - eexists; split; reflexivity.
  - lia.
  - intros r1 H _. injection H as <-. vm_compute. discriminate.
Defined.

End ReviewSequentialRuns.

Module MakeRequestRuns.
Import MakeRequest MakeRequestMore.

(** Attempt 0 times out, attempt 1 gets a 200 reply. *)
Definition gets_timeout_then_ok (a : Z) : get_outcome Z :=
  if a =? 0 then GetRaises Timeout else GetResponse 200 (Some 7).

Lemma make_request_first_decisive_witness :
  make_request gets_timeout_then_ok = (Returned (Some (7, 200)), [50], [0; 1]).
Proof.
  apply (make_request_first_decisive gets_timeout_then_ok 1).
  - lia.
  - intros a Ha. destruct a as [|a]; [|lia]. exists Timeout. split; reflexivity.
  - intros e He. discriminate.
Defined.

Lemma make_request_returned_status_witness :
  ~ (400 <= 200 < 600).
Proof.
  apply (make_request_returned_status gets_timeout_then_ok 7 200 [50] [0; 1]).
  reflexivity.
Defined.

End MakeRequestRuns.

Module StorageRuns.
Import BatchInsert Storage StorageFacts.

Definition zero_stats : stats := fun _ => 0.

Lemma store_product_zero_replies_witness :
  store_product true (fun _ => Replies (Some 0)) zero_stats = (None, zero_stats, [], [0; 1; 2]).
Proof. apply store_product_zero_replies. intros a _. reflexivity. Defined.

End StorageRuns.

Module ProductIdsRuns.
Import BatchInsert PyText ProductIds ProductIdsFacts.



End ProductIdsRuns.

Module BrandLeavesRuns.
Import Categories BrandLeaves BrandLeavesFacts.

Definition tree : list category :=
  [Cat (Some 1) (Some "Skincare"%string)
     (ChildList [Cat (Some 2) (Some "Toner"%string) NoChildKey;
                 Cat (Some 3) (Some "Serum"%string) (ChildList [])]);
   Cat (Some 4) (Some "Hair"%string) NoChildKey].

Lemma get_all_leaves_tree_witness :
  get_all_leaves tree = Some (leaves_list tree)
  /\ fmap (map to_leaf) (get_all_leaves tree) = Some (parse_category_hierarchy tree).
Proof.
  destruct (get_all_leaves_tree tree eq_refl eq_refl) as [H1 H2].
  split; [exact H1|]. apply H2. reflexivity.
Defined.

End BrandLeavesRuns.

Module BrandsFileRuns.
Import PyText BrandsFile BrandsFileFacts.

Lemma brand_line_semicolon_split_witness :
  exists piece, In piece (split_on ";" (strip (list_ascii_of_string "12;34,56"%string)))
    /\ token_id piece = Some 12 /\ ~ In ","%char (clean_token piece).
Proof.
  apply brand_line_semicolon_split; vm_compute; [reflexivity|left; reflexivity].
Defined.

Lemma token_inline_comment_witness :
  token_id (list_ascii_of_string " 42 "%string ++ "#"%char :: list_ascii_of_string " shop"%string)
  = token_id (list_ascii_of_string " 42 "%string).
Proof.
  apply token_inline_comment. vm_compute. intros [H|[H|[H|[H|[]]]]]; discriminate.
Defined.

Definition env_brands (lines : list string) : Orchestrator.env :=
  Orchestrator.mk_env (bool_decide (load_brand_ids (Some lines) <> [])) true [1]
    (fun _ => Some 1) (fun _ => Some 1) (fun _ => None) (fun _ => []).

Lemma brands_file_only_comments_witness :
  load_brand_ids (Some ["# brands"%string; "   "%string; "  # 123"%string]) = []
  /\ Orchestrator.crawl_all (env_brands ["# brands"%string; "   "%string; "  # 123"%string])
     = ([], Orchestrator.RunReturned).
Proof.
  destruct (brands_file_only_comments ["# brands"%string; "   "%string; "  # 123"%string])
    as [H1 H2].
  - intros line Hl. simpl in Hl.
    destruct Hl as [<-|[<-|[<-|[]]]]; vm_compute; exact I || reflexivity.
  - split; [exact H1|]. apply H2. reflexivity.
Defined.

End BrandsFileRuns.

